(** * uu-wcag-mcp: violation-to-criterion mapping and aggregation

    A shallow embedding of the parts of the repository that map pa11y issue
    codes onto WCAG success criteria and aggregate them:

    - [analyzer.js]: [_groupIssuesByType], [_groupIssuesByImpact],
      [analyzePage], [analyzeWebsite];
    - [reporter.js]: [_mapViolationsToWCAG] and the status classification of
      [_updateWorksheet];
    - [index.js]: the Markdown renderer's own [_mapViolationsToWCAG].

    JavaScript strings are modelled as [string] (a list of characters; the
    classes used by the source, [\d] and the ASCII letters folded by
    [toLowerCase], are ASCII-only).  A property that may be [undefined] is an
    [option].  A plain object used as a dictionary is an insertion-ordered
    association list ([JsObject]); none of the keys built by the source is an
    array index, so insertion order is the enumeration order of
    [Object.values] and [Object.keys].  A lookup [o[k]] also finds what
    [o] inherits from [Object.prototype]: this is modelled where a key can
    name an inherited member, in the dictionary of [_groupIssuesByType],
    whose keys are built from the code and the type of an issue.  The
    dictionaries of the two renderers are keyed by criterion numbers, digits
    separated by dots, which name no inherited member; there a lookup is a
    lookup among the own properties. *)

From Stdlib Require Import String Ascii List Bool Arith Lia Permutation.
From Stdlib Require Import DecimalString.
Import ListNotations.
Open Scope string_scope.
Open Scope nat_scope.

(** ** JavaScript values *)

(** [`${v}`]: the string conversion of a template literal. *)
Definition tpl (v : option string) : string :=
  match v with
  | Some s => s
  | None => "undefined"
  end.

(** [v === 'lit'] for a property that may be undefined. *)
Definition strictEq (v : option string) (lit : string) : bool :=
  match v with
  | Some s => String.eqb s lit
  | None => false
  end.

(** [String.prototype.toLowerCase] on the ASCII letters. *)
Definition lowerChar (c : ascii) : ascii :=
  let n := nat_of_ascii c in
  if (65 <=? n) && (n <=? 90) then ascii_of_nat (n + 32) else c.

Fixpoint toLowerCase (s : string) : string :=
  match s with
  | EmptyString => EmptyString
  | String c s' => String (lowerChar c) (toLowerCase s')
  end.

(** Decimal rendering of a number inside a template literal. *)
Definition showNat (n : nat) : string :=
  NilZero.string_of_uint (Nat.to_uint n).

(** ** Insertion-ordered dictionaries *)

Module JsObject.
Section Obj.
Context {V : Type}.

Definition t := list (string * V).

Fixpoint get (k : string) (o : t) : option V :=
  match o with
  | [] => None
  | (k', v) :: o' => if String.eqb k k' then Some v else get k o'
  end.

(** [o[k] = v]: overwrite in place, or append a new property. *)
Fixpoint set (k : string) (v : V) (o : t) : t :=
  match o with
  | [] => [(k, v)]
  | (k', v') :: o' =>
      if String.eqb k k' then (k', v) :: o' else (k', v') :: set k v o'
  end.

(** [o[k].f(...)]: mutate the value stored under [k] where it stands. *)
Fixpoint update (k : string) (f : V -> V) (o : t) : t :=
  match o with
  | [] => []
  | (k', v) :: o' =>
      if String.eqb k k' then (k', f v) :: o' else (k', v) :: update k f o'
  end.

Definition keys (o : t) : list string := map fst o.
Definition values (o : t) : list V := map snd o.
End Obj.
Arguments t : clear implicits.
End JsObject.

(** ** Regular expressions

    The three patterns of the source are sequences of literal characters and
    of the capture groups [(\d)] and [(\d+)].  [matchHere] is a backtracking
    matcher anchored at the head of the subject; [exec] is
    [String.prototype.match] for a pattern without the [g] flag: the leftmost
    position at which the pattern matches.  The result lists the capture
    groups, JavaScript's [m[1]], [m[2]], ..., and the text after the match. *)

Module Regex.

Inductive tok : Type :=
| Lit (c : ascii)   (* a literal character *)
| Dig               (* (\d)  *)
| Digs.             (* (\d+), greedy *)

Definition pattern := list tok.

Fixpoint lit (s : string) : pattern :=
  match s with
  | EmptyString => []
  | String c s' => Lit c :: lit s'
  end.

Definition isDigit (c : ascii) : bool :=
  let n := nat_of_ascii c in (48 <=? n) && (n <=? 57).

Definition withGroup (g : string) (r : option (list string * string)) :=
  match r with
  | Some (gs, rest) => Some (g :: gs, rest)
  | None => None
  end.

(** [(\d+)] followed by the rest of the pattern [k]: the longest run of
    digits is tried first, then the shorter ones. *)
Fixpoint digsThen (k : string -> option (list string * string))
  (acc s : string) : option (list string * string) :=
  match s with
  | String c' s' =>
      if isDigit c' then
        let g := acc ++ String c' "" in
        match digsThen k g s' with
        | Some r => Some r
        | None => withGroup g (k s')
        end
      else None
  | EmptyString => None
  end.

Fixpoint matchHere (p : pattern) (s : string) : option (list string * string) :=
  match p with
  | [] => Some ([], s)
  | Lit c :: p' =>
      match s with
      | String c' s' => if Ascii.eqb c c' then matchHere p' s' else None
      | EmptyString => None
      end
  | Dig :: p' =>
      match s with
      | String c' s' =>
          if isDigit c' then withGroup (String c' "") (matchHere p' s') else None
      | EmptyString => None
      end
  | Digs :: p' => digsThen (matchHere p') "" s
  end.

Fixpoint search (p : pattern) (s : string) : option (list string * string) :=
  match matchHere p s with
  | Some r => Some r
  | None =>
      match s with
      | String _ s' => search p s'
      | EmptyString => None
      end
  end.

(** [s.match(p)]: the capture groups, or [None] for JavaScript's [null]. *)
Definition exec (p : pattern) (s : string) : option (list string) :=
  option_map fst (search p s).

(** [m[i]] for [i >= 1]. *)
Definition group (gs : list string) (i : nat) : string := nth (i - 1) gs "".

End Regex.

Import Regex.

(** [/Principle(\d)\.Guideline(\d+)_(\d+)\.(\d+)_(\d+)_(\d+)/] (reporter.js). *)
Definition reStructured : pattern :=
  concat [lit "Principle"; [Dig]; lit ".Guideline"; [Digs]; lit "_"; [Digs];
          lit "."; [Digs]; lit "_"; [Digs]; lit "_"; [Digs]].

(** [/(\d+)\.(\d+)\.(\d+)/] (reporter.js, the alternative format). *)
Definition reAlt : pattern :=
  concat [[Digs]; lit "."; [Digs]; lit "."; [Digs]].

(** [/Guideline(\d+)_(\d+)\.(\d+)_(\d+)_(\d+)/] (index.js). *)
Definition reGuideline : pattern :=
  concat [lit "Guideline"; [Digs]; lit "_"; [Digs]; lit "."; [Digs];
          lit "_"; [Digs]; lit "_"; [Digs]].

(** ** Data model *)

(** One [{selector, context}] entry of a grouped issue's [elements]. *)
Definition Element : Type := (option string * option string)%type.

(** An issue object, as pa11y produces it and as [_groupIssuesByType] returns
    it.  pa11y sets neither [elements] nor [affectedElements]; the fields
    [typeCode], [runner] and [runnerExtras] are copied through and never read,
    and are left out. *)
Record Issue : Type := mkIssue {
  code : option string;
  type : option string;
  message : option string;
  context : option string;
  selector : option string;
  elements : list Element;
  affectedElements : option nat
}.

(** What pa11y hands back for one page. *)
Record Results : Type := mkResults {
  r_pageTitle : option string;
  r_issues : list Issue
}.

(** The object returned by [analyzePage] (the timestamp is left out). *)
Record PageAnalysis : Type := mkPageAnalysis {
  p_url : string;
  p_pageTitle : string;
  p_issues : list Issue;
  p_totalIssues : nat
}.

Record Impact : Type := mkImpact {
  critical : nat;
  serious : nat;
  moderate : nat;
  minor : nat
}.

(** The object returned by [analyzeWebsite] (the timestamp is left out;
    a failed page keeps its URL only). *)
Record WebsiteAnalysis : Type := mkWebsiteAnalysis {
  baseUrl : string;
  pagesAnalyzed : nat;
  totalIssues : nat;
  pageAnalyses : list PageAnalysis;
  issuesByImpact : Impact;
  failedPages : list string
}.

(** The [analysis] argument of the two renderers: the fields they read. *)
Record Analysis : Type := mkAnalysis {
  a_pageAnalyses : option (list PageAnalysis);
  a_issues : option (list Issue)
}.

Definition ofPage (p : PageAnalysis) : Analysis :=
  mkAnalysis None (Some (p_issues p)).

Definition ofWebsite (w : WebsiteAnalysis) : Analysis :=
  mkAnalysis (Some (pageAnalyses w)) None.

(** A thrown exception. *)
Inductive result (A : Type) : Type :=
| Ok (a : A)
| Throw.
Arguments Ok {A} a.
Arguments Throw {A}.

Definition bind {A B : Type} (r : result A) (k : A -> result B) : result B :=
  match r with
  | Ok a => k a
  | Throw => Throw
  end.

Notation "x <- r ;; k" := (bind r (fun x => k))
  (at level 61, r at next level, right associativity).

(** A [for ... of] loop whose body may throw. *)
Fixpoint forOf {A S : Type} (body : S -> A -> result S) (l : list A) (s : S)
  : result S :=
  match l with
  | [] => Ok s
  | a :: l' => s' <- body s a ;; forOf body l' s'
  end.

(** ** analyzer.js *)

Module WCAGAnalyzer.

(** The key [`${issue.code}_${issue.type}`]. *)
Definition groupKey (issue : Issue) : string :=
  tpl (code issue) ++ "_" ++ tpl (type issue).

(** The object stored under a new key: its [elements] start empty. *)
Definition newGroup (issue : Issue) : Issue :=
  mkIssue (code issue) (type issue) (message issue) (context issue)
          (selector issue) [] None.

Definition pushElement (e : Element) (g : Issue) : Issue :=
  mkIssue (code g) (type g) (message g) (context g) (selector g)
          (elements g ++ [e])%list (affectedElements g).

(** The names every plain object inherits from [Object.prototype]: the
    dictionary [grouped] starts as [{}], so [grouped[key]] finds them. *)
Definition inherited : list string :=
  [ "__proto__"; "__defineGetter__"; "__defineSetter__"; "__lookupGetter__";
    "__lookupSetter__"; "constructor"; "hasOwnProperty"; "isPrototypeOf";
    "propertyIsEnumerable"; "toLocaleString"; "toString"; "valueOf" ].

(** What [grouped[key]] evaluates to: a group the loop stored, a member of
    [Object.prototype] (truthy, without [elements]), or [undefined]. *)
Inductive Property : Type :=
| Own (g : Issue)
| Inherited
| Undefined.

Definition property (key : string) (grouped : JsObject.t Issue) : Property :=
  match JsObject.get key grouped with
  | Some g => Own g
  | None => if existsb (String.eqb key) inherited then Inherited else Undefined
  end.

(** The body of the loop of [_groupIssuesByType]: [!grouped[key]] holds for
    [undefined] only, and [grouped[key].elements.push] throws a TypeError
    on an inherited member, whose [elements] is [undefined]. *)
Definition groupStep (grouped : JsObject.t Issue) (issue : Issue)
  : result (JsObject.t Issue) :=
  let key := groupKey issue in
  let element := (selector issue, context issue) in
  match property key grouped with
  | Undefined =>
      Ok (JsObject.update key (pushElement element)
            (JsObject.set key (newGroup issue) grouped))
  | Own _ => Ok (JsObject.update key (pushElement element) grouped)
  | Inherited => Throw
  end.

(** [" (Affects N element(s))"]. *)
Definition affectsSuffix (n : nat) : string :=
  " (Affects " ++ showNat n ++ " element" ++ (if 1 <? n then "s" else "")
    ++ ")".

(** The [map] at the end: [{...issue, affectedElements, message}]. *)
Definition withCount (g : Issue) : Issue :=
  mkIssue (code g) (type g)
          (Some (tpl (message g) ++ affectsSuffix (length (elements g))))
          (context g) (selector g) (elements g)
          (Some (length (elements g))).

Definition _groupIssuesByType (issues : list Issue) : result (list Issue) :=
  grouped <- forOf groupStep issues [] ;;
  Ok (map withCount (JsObject.values grouped)).

(** [issue.type?.toLowerCase() || 'notice']. *)
Definition impactType (issue : Issue) : string :=
  match type issue with
  | Some t => if String.eqb (toLowerCase t) "" then "notice" else toLowerCase t
  | None => "notice"
  end.

Definition impactStep (impact : Impact) (issue : Issue) : Impact :=
  let t := impactType issue in
  if String.eqb t "error" then
    mkImpact (S (critical impact)) (serious impact) (moderate impact) (minor impact)
  else if String.eqb t "warning" then
    mkImpact (critical impact) (S (serious impact)) (moderate impact) (minor impact)
  else
    mkImpact (critical impact) (serious impact) (S (moderate impact)) (minor impact).

Definition _groupIssuesByImpact (issues : list Issue) : Impact :=
  fold_left impactStep issues (mkImpact 0 0 0 0).

(** [[...new Set(urls)]]: the first occurrence of every URL, in order. *)
Fixpoint uniq (seen urls : list string) : list string :=
  match urls with
  | [] => []
  | u :: urls' =>
      if existsb (String.eqb u) seen then uniq seen urls'
      else u :: uniq (u :: seen) urls'
  end.

Section Scanner.
(** The browser and pa11y are outside the model: [pa11y url] is what the
    scan of [url] returns, [None] when launching the browser or the scan
    throws. *)
Variable pa11y : string -> option Results.

(** Whatever is thrown inside the [try], by the scan or by the grouping,
    is caught and thrown again. *)
Definition analyzePage (url : string) : result PageAnalysis :=
  match pa11y url with
  | None => Throw
  | Some results =>
      groupedIssues <- _groupIssuesByType (r_issues results) ;;
      Ok (mkPageAnalysis url
            (match r_pageTitle results with
             | Some t => t
             | None => ""
             end)
            groupedIssues
            (length (r_issues results)))
  end.

(** The state of the loop of [analyzeWebsite]:
    [pageAnalyses], [failedPages], [allIssues]. *)
Definition crawlState : Type :=
  (list PageAnalysis * list string * list Issue)%type.

Definition crawlStep (st : crawlState) (url : string) : crawlState :=
  let '(pages, failed, allIssues) := st in
  match analyzePage url with
  | Ok analysis =>
      ((pages ++ [analysis])%list, failed, (allIssues ++ p_issues analysis)%list)
  | Throw => (pages, (failed ++ [url])%list, allIssues)
  end.

Definition analyzeWebsite (urls : list string) : WebsiteAnalysis :=
  let uniqueUrls := uniq [] urls in
  let '(pages, failed, allIssues) :=
    fold_left crawlStep uniqueUrls ([], [], []) in
  mkWebsiteAnalysis
    (hd "" uniqueUrls)
    (length pages)
    (length allIssues)
    pages
    (_groupIssuesByImpact allIssues)
    failed.
End Scanner.

End WCAGAnalyzer.

(** [issue.affectedElements || 1]: [undefined] and [0] are falsy. *)
Definition orOne (n : option nat) : nat :=
  match n with
  | Some (S k) => S k
  | Some O => 1
  | None => 1
  end.

(** [issue.code?.match(p)]: an undefined code yields [undefined]. *)
Definition optMatch (c : option string) (p : pattern) : option (list string) :=
  match c with
  | Some s => exec p s
  | None => None
  end.

(** ** reporter.js *)

Module ExcelReporter.

(** An entry of a criterion's [issues] array. *)
Record Violation : Type := mkViolation {
  v_type : option string;
  v_message : option string;
  v_selector : option string;
  v_affectedElements : nat
}.

(** A value of [violationsByCriteria]. *)
Record Criterion : Type := mkCriterion {
  principle : string;
  criterion : string;
  issues : list Violation
}.

Definition violationOf (issue : Issue) : Violation :=
  mkViolation (type issue) (message issue) (selector issue)
              (orOne (affectedElements issue)).

Definition pushIssue (v : Violation) (c : Criterion) : Criterion :=
  mkCriterion (principle c) (criterion c) (issues c ++ [v])%list.

(** Create the entry of [criterion] when it is missing, then push. *)
Definition record (principleNo criterion : string) (issue : Issue)
  (violationsByCriteria : JsObject.t Criterion) : JsObject.t Criterion :=
  let o1 :=
    match JsObject.get criterion violationsByCriteria with
    | None =>
        JsObject.set criterion
          (mkCriterion ("Prinsipp " ++ principleNo) criterion [])
          violationsByCriteria
    | Some _ => violationsByCriteria
    end in
  JsObject.update criterion (pushIssue (violationOf issue)) o1.

(** The body of the loop over [allIssues]. *)
Definition mapStep (violationsByCriteria : JsObject.t Criterion) (issue : Issue)
  : JsObject.t Criterion :=
  match optMatch (code issue) reStructured with
  | Some wcagMatch =>
      let principle := group wcagMatch 1 in
      let sc1 := group wcagMatch 4 in
      let sc2 := group wcagMatch 5 in
      let sc3 := group wcagMatch 6 in
      let criterion := sc1 ++ "." ++ sc2 ++ "." ++ sc3 in
      record principle criterion issue violationsByCriteria
  | None =>
      match optMatch (code issue) reAlt with
      | Some altMatch =>
          let criterion :=
            group altMatch 1 ++ "." ++ group altMatch 2 ++ "."
              ++ group altMatch 3 in
          record (group altMatch 1) criterion issue violationsByCriteria
      | None => violationsByCriteria
      end
  end.

(** "Collect all issues from all pages". *)
Definition allIssues (analysis : Analysis) : list Issue :=
  match a_pageAnalyses analysis with
  | Some pages => concat (map p_issues pages)
  | None =>
      match a_issues analysis with
      | Some l => l
      | None => []
      end
  end.

Definition _mapViolationsToWCAG (analysis : Analysis) : JsObject.t Criterion :=
  fold_left mapStep (allIssues analysis) [].

(** [_updateWorksheet], for a row whose criterion has an entry. *)
Definition errorCount (violations : Criterion) : nat :=
  length (filter (fun i => strictEq (v_type i) "error") (issues violations)).

Definition warningCount (violations : Criterion) : nat :=
  length (filter (fun i => strictEq (v_type i) "warning") (issues violations)).

Definition totalElements (violations : Criterion) : nat :=
  fold_left (fun sum i => sum + v_affectedElements i) (issues violations) 0.

(** The text written to the status cell (column D):
    ["Ikke oppfylt"] is "not compliant", ["Advarsel"] is "warning",
    ["Oppfylt"] is "compliant". *)
Definition statusValue (violations : Criterion) : string :=
  if 0 <? errorCount violations then "Ikke oppfylt"
  else if 0 <? warningCount violations then "Advarsel"
  else "Oppfylt".

(** The status of the row of [criterion]; [None] leaves the cell as it was. *)
Definition rowStatus (violationsByCriteria : JsObject.t Criterion)
  (criterion : string) : option string :=
  option_map statusValue (JsObject.get criterion violationsByCriteria).

End ExcelReporter.

(** ** index.js *)

Module WCAGMCPServer.

(** An entry of a criterion's array in the Markdown renderer. *)
Record Entry : Type := mkEntry {
  e_message : option string;
  e_type : option string;
  e_selector : option string;
  e_count : nat;
  e_context : option string
}.

Definition entryOf (issue : Issue) : Entry :=
  mkEntry (message issue) (type issue) (selector issue)
              (orOne (affectedElements issue)) (context issue).

Definition fileEntry (criteria : string) (issue : Issue)
  (violationsByCriteria : JsObject.t (list Entry))
  : JsObject.t (list Entry) :=
  let o1 :=
    match JsObject.get criteria violationsByCriteria with
    | None => JsObject.set criteria [] violationsByCriteria
    | Some _ => violationsByCriteria
    end in
  JsObject.update criteria (fun l => l ++ [entryOf issue])%list o1.

(** The body of the inner loop; [issue.code.match] throws a [TypeError]
    when [code] is undefined. *)
Definition entryStep (violationsByCriteria : JsObject.t (list Entry))
  (issue : Issue) : result (JsObject.t (list Entry)) :=
  match code issue with
  | None => Throw
  | Some c =>
      match exec reGuideline c with
      | Some m =>
          let major := group m 1 in
          let minor := group m 2 in
          let sc3 := group m 5 in
          let criteria := major ++ "." ++ minor ++ "." ++ sc3 in
          Ok (fileEntry criteria issue violationsByCriteria)
      | None => Ok violationsByCriteria
      end
  end.

(** Iterating [analysis.pageAnalyses] throws when it is undefined. *)
Definition _mapViolationsToWCAG (analysis : Analysis)
  : result (JsObject.t (list Entry)) :=
  match a_pageAnalyses analysis with
  | None => Throw
  | Some pages =>
      forOf (fun acc page => forOf entryStep (p_issues page) acc) pages []
  end.

End WCAGMCPServer.

(** ** index.js: [convertLocalhostUrl] *)

(** [s.startsWith(needle)]. *)
Fixpoint startsWith (needle s : string) : bool :=
  match needle with
  | EmptyString => true
  | String c needle' =>
      match s with
      | String c' s' => Ascii.eqb c c' && startsWith needle' s'
      | EmptyString => false
      end
  end.

(** [s.includes(needle)]. *)
Fixpoint includes (needle s : string) : bool :=
  if startsWith needle s then true
  else
    match s with
    | String _ s' => includes needle s'
    | EmptyString => false
    end.

(** [s.slice(n)]. *)
Fixpoint dropChars (n : nat) (s : string) : string :=
  match n with
  | O => s
  | S n' =>
      match s with
      | String _ s' => dropChars n' s'
      | EmptyString => EmptyString
      end
  end.

(** [s.replace(needle, repl)] for a string pattern, and a replacement
    without [$]: the first occurrence is replaced, no other. *)
Fixpoint replace (needle repl s : string) : string :=
  if startsWith needle s then repl ++ dropChars (String.length needle) s
  else
    match s with
    | String c s' => String c (replace needle repl s')
    | EmptyString => EmptyString
    end.

Definition convertLocalhostUrl (url : string) : string :=
  if includes "localhost" url || includes "127.0.0.1" url then
    replace "127.0.0.1" "host.docker.internal"
      (replace "localhost" "host.docker.internal" url)
  else url.

(** ** scraper.js *)

Module WebScraper.

(** [pages.includes(link)], [this.visited.has(page)]. *)
Definition has (x : string) (l : list string) : bool :=
  existsb (String.eqb x) l.

Section Crawler.
(** The network is outside the model.  [hostname url] is
    [new URL(url).hostname], [None] when the constructor throws.
    [_extractLinks url baseDomain] is the list the method of that name
    returns: the same-domain links of the page, and the empty list when the
    request fails.  Depth and page limits are natural numbers. *)
Variable hostname : string -> option string.
Variable _extractLinks : string -> string -> list string.

(** The body of the loop over [links]; the state is [pages] and
    [nextToCrawl]. *)
Definition addLink (maxPages : nat) (st : list string * list string)
  (link : string) : list string * list string :=
  let '(pages, nextToCrawl) := st in
  if negb (has link pages) && (length pages <? maxPages) then
    ((pages ++ [link])%list, (nextToCrawl ++ [link])%list)
  else st.

(** The body of the loop over [toCrawl]; the state is [pages],
    [this.visited] and [nextToCrawl]. *)
Definition visitPage (baseDomain : string) (maxPages : nat)
  (st : list string * list string * list string) (page : string)
  : list string * list string * list string :=
  let '(pages, visited, nextToCrawl) := st in
  if has page visited || (maxPages <=? length pages) then st
  else
    let links := _extractLinks page baseDomain in
    let '(pages', nextToCrawl') :=
      fold_left (addLink maxPages) links (pages, nextToCrawl) in
    (pages', page :: visited, nextToCrawl').

(** The loop over the depths, [depths] rounds being left. *)
Fixpoint crawl (baseDomain : string) (maxPages depths : nat)
  (pages visited toCrawl : list string) : list string :=
  match depths with
  | O => pages
  | S depths' =>
      if (maxPages <=? length pages)
         || match toCrawl with [] => true | _ => false end
      then pages
      else
        let '(pages', visited', nextToCrawl) :=
          fold_left (visitPage baseDomain maxPages) toCrawl
                    (pages, visited, []) in
        crawl baseDomain maxPages depths' pages' visited' nextToCrawl
  end.

Definition discoverPages (startUrl : string) (maxDepth maxPages : nat)
  : result (list string) :=
  match hostname startUrl with
  | None => Throw
  | Some baseDomain =>
      let pages :=
        crawl baseDomain maxPages maxDepth [startUrl] [] [startUrl] in
      let uniquePages := WCAGAnalyzer.uniq [] pages in
      Ok (firstn maxPages uniquePages)
  end.
End Crawler.

End WebScraper.

(** ** reporter.js: the rows of the worksheet *)

Module Worksheet.

(** What [cellC.value.text] holds when the value of the cell is an
    object: a string; a truthy value that is not a string (the rich text
    of a hyperlink, say); or a falsy one, [undefined] where the object has
    no [text], as a rich-text value [{richText: [...]}], a formula or a
    date. *)
Inductive TextField : Type :=
| TextString (s : string)
| TextTruthy
| TextFalsy.

(** The value of a cell of column C: an object with what its [text]
    holds (a hyperlink value [{text, hyperlink}] has one), a string, or
    anything else ([null], a number, a boolean). *)
Inductive CellValue : Type :=
| Object (text : TextField)
| Plain (s : string)
| Other.

(** What the variable [criterionText] holds after the [if]: a string, or
    the [text] of the object when that is truthy and not a string. *)
Inductive Text : Type :=
| Str (s : string)
| NotStr.

(** The empty string is falsy: the first test fails on it, the second
    test fails on an object, and [criterionText] stays ['']. *)
Definition criterionText (value : CellValue) : Text :=
  match value with
  | Object (TextString text) =>
      if String.eqb text "" then Str "" else Str text
  | Object TextTruthy => NotStr
  | Object TextFalsy => Str ""
  | Plain s => Str s
  | Other => Str ""
  end.

(** [criterionText.match(/^(\d+\.\d+\.\d+)/)]: the pattern of [reAlt],
    anchored at the start; its one group is the whole match. *)
Definition criterionMatch (text : string) : option string :=
  match matchHere reAlt text with
  | Some (gs, _) => Some (group gs 1 ++ "." ++ group gs 2 ++ "." ++ group gs 3)
  | None => None
  end.

(** [m.substring(0, 100) + (m.length > 100 ? '...' : '')]. *)
Definition truncate (m : string) : string :=
  substring 0 100 m ++ (if 100 <? String.length m then "..." else "").

(** The text of a detail line of the note, after its bullet;
    [issue.message.substring] throws when the message is undefined. *)
Definition detail (issue : ExcelReporter.Violation) : result string :=
  match ExcelReporter.v_message issue with
  | Some m => Ok (truncate m)
  | None => Throw
  end.

(** [violations.issues.slice(0, 3).map(...)]. *)
Definition details (violations : ExcelReporter.Criterion)
  : result (list string) :=
  forOf (fun lines issue => line <- detail issue ;; Ok (lines ++ [line])%list)
        (firstn 3 (ExcelReporter.issues violations)) [].

(** The body of the loop of [_updateWorksheet] for one row: the status
    written to column D and the detail lines of its note (the counts that
    head the note are left out); [None] leaves the row as it was.  A
    [criterionText] that is not a string has no [match] method: the call
    throws a TypeError. *)
Definition updateRow (violationsByCriteria : JsObject.t ExcelReporter.Criterion)
  (value : CellValue) : result (option (string * list string)) :=
  match criterionText value with
  | NotStr => Throw
  | Str text =>
      match criterionMatch text with
      | Some criterion =>
          match JsObject.get criterion violationsByCriteria with
          | Some violations =>
              lines <- details violations ;;
              Ok (Some (ExcelReporter.statusValue violations, lines))
          | None => Ok None
          end
      | None => Ok None
      end
  end.

(** The loop over the rows, from row 6 on: the cells written, in order, and
    [updatedRows]. *)
Definition updateRows (violationsByCriteria : JsObject.t ExcelReporter.Criterion)
  (rows : list CellValue) : result (list (option (string * list string)) * nat) :=
  forOf (fun st value =>
           r <- updateRow violationsByCriteria value ;;
           Ok ((fst st ++ [r])%list,
               match r with
               | Some _ => S (snd st)
               | None => snd st
               end))
        rows ([], 0).

End Worksheet.

(** ** index.js: the status line of the Markdown report *)

Module MarkdownReport.

(** [violations.filter(v => v.type === 'error').length]. *)
Definition errorCount (violations : list WCAGMCPServer.Entry) : nat :=
  length (filter (fun v => strictEq (WCAGMCPServer.e_type v) "error")
                 violations).

(** The [status] of a criterion in [_generateMarkdownReport]. *)
Definition status (language : string)
  (violations : list WCAGMCPServer.Entry) : string :=
  if 0 <? errorCount violations then
    (if String.eqb language "en" then "Error" else "Feil")
  else
    (if String.eqb language "en" then "Warning" else "Advarsel").

End MarkdownReport.

Import WCAGAnalyzer.

(** * Vocabulary of the properties *)

(** ** Dictionaries *)

(** The idiom of the three grouping loops:
    [if (!o[k]) o[k] = init; o[k].push(...)]. *)
Definition upsert {V : Type} (k : string) (init : V) (f : V -> V)
  (o : JsObject.t V) : JsObject.t V :=
  JsObject.update k f
    match JsObject.get k o with
    | None => JsObject.set k init o
    | Some _ => o
    end.

(** ** Regular expressions *)

(** The text a pattern matches, given the text of its groups. *)
Fixpoint render (p : pattern) (gs : list string) : string :=
  match p with
  | [] => ""
  | Lit c :: p' => String c (render p' gs)
  | _ :: p' =>
      match gs with
      | g :: gs' => g ++ render p' gs'
      | [] => ""
      end
  end.

Fixpoint groups (p : pattern) : nat :=
  match p with
  | [] => 0
  | Lit _ :: p' => groups p'
  | _ :: p' => S (groups p')
  end.

Fixpoint allDigits (s : string) : bool :=
  match s with
  | EmptyString => true
  | String c s' => isDigit c && allDigits s'
  end.

(** The text of a group [(\d)] or [(\d+)]: one digit or more. *)
Definition number (s : string) : Prop := s <> "" /\ allDigits s = true.

Definition noDigitAhead (s : string) : Prop :=
  match s with
  | String c _ => isDigit c = false
  | EmptyString => True
  end.

(** [lacks c s]: the character [c] does not occur in [s]. *)
Fixpoint lacks (c : ascii) (s : string) : bool :=
  match s with
  | EmptyString => true
  | String c' s' => negb (Ascii.eqb c c') && lacks c s'
  end.

(** ** Grouping loops

    The three loops of the source have one shape: an item is filed under a
    key, whose entry is created when the first item is filed there. *)

Module GroupFold.
Section Fold.
Context {A V : Type}.
(** [cls a]: the key of [a] and the entry created when the key is new;
    [add a]: what filing [a] does to the entry. *)
Variable cls : A -> option (string * V).
Variable add : A -> V -> V.

Definition step (o : JsObject.t V) (a : A) : JsObject.t V :=
  match cls a with
  | Some (k, init) => upsert k init (add a) o
  | None => o
  end.

Definition files (k : string) (a : A) : bool :=
  match cls a with
  | Some (k', _) => String.eqb k' k
  | None => false
  end.

Definition hits (k : string) (l : list A) : list A := filter (files k) l.

Definition absorb (v : V) (l : list A) : V :=
  fold_left (fun v a => add a v) l v.

(** The entry created for the first item of a non-empty list. *)
Definition fresh (l : list A) : option V :=
  match l with
  | [] => None
  | a :: _ => option_map snd (cls a)
  end.
End Fold.
End GroupFold.

(** ** analyzer.js *)

Definition groupCls (issue : Issue) : option (string * Issue) :=
  Some (groupKey issue, newGroup issue).

Definition groupAdd (issue : Issue) : Issue -> Issue :=
  pushElement (selector issue, context issue).

Definition elementOf (issue : Issue) : Element :=
  (selector issue, context issue).

(** The raw issues whose key is [k]. *)
Definition sameKey (k : string) (issues : list Issue) : list Issue :=
  filter (fun i => String.eqb (groupKey i) k) issues.

(** The entry returned for the raw issues [merged], first seen as [a]. *)
Definition summary (a : Issue) (merged : list Issue) : Issue :=
  mkIssue (code a) (type a)
          (Some (tpl (message a) ++ affectsSuffix (length merged)))
          (context a) (selector a) (map elementOf merged)
          (Some (length merged)).

(** Whether the key of an issue names a member of [Object.prototype]. *)
Definition inheritedKey (issue : Issue) : bool :=
  existsb (String.eqb (groupKey issue)) inherited.

(** The body of the loop of [_groupIssuesByType] on a key that is not
    inherited: a group is created when the key is new, and the element is
    pushed. *)
Definition fileIssue (grouped : JsObject.t Issue) (issue : Issue)
  : JsObject.t Issue :=
  let key := groupKey issue in
  let grouped1 :=
    match JsObject.get key grouped with
    | None => JsObject.set key (newGroup issue) grouped
    | Some _ => grouped
    end in
  JsObject.update key (pushElement (selector issue, context issue)) grouped1.

(** The dictionary built by the loop of [_groupIssuesByType] when no key
    is inherited. *)
Definition grouped (issues : list Issue) : JsObject.t Issue :=
  fold_left fileIssue issues [].

(** No key stored in the dictionary is inherited. *)
Definition ownKeys (o : JsObject.t Issue) : Prop :=
  forall k, In k (JsObject.keys o) -> existsb (String.eqb k) inherited = false.

(** The entries [_groupIssuesByType] returns when no key is inherited. *)
Definition groupedEntries (issues : list Issue) : list Issue :=
  map withCount (JsObject.values (grouped issues)).

Definition distinctKeys (issues : list Issue) : nat :=
  length (nodup string_dec (map groupKey issues)).

(** The pair [(code, type)] of an issue. *)
Definition pairOf (i : Issue) : option string * option string :=
  (code i, type i).

Definition pair_dec (x y : option string * option string) : {x = y} + {x <> y}.
Proof. repeat decide equality. Defined.

Definition distinctPairs (issues : list Issue) : nat :=
  length (nodup pair_dec (map pairOf issues)).

(** The raw issues that have the code and the type of [i]. *)
Definition samePair (i : Issue) (issues : list Issue) : list Issue :=
  filter (fun j => if pair_dec (pairOf j) (pairOf i) then true else false)
         issues.

(** An issue with a code, and with a type in which no underscore occurs. *)
Definition plainType (i : Issue) : bool :=
  match code i, type i with
  | Some _, Some t => lacks "_" t
  | _, _ => false
  end.

(** The three classes of [_groupIssuesByImpact]. *)
Definition isCritical (i : Issue) : bool := String.eqb (impactType i) "error".

Definition isSerious (i : Issue) : bool :=
  negb (isCritical i) && String.eqb (impactType i) "warning".

Definition isModerate (i : Issue) : bool :=
  negb (isCritical i) && negb (String.eqb (impactType i) "warning").

Definition count (f : Issue -> bool) (l : list Issue) : nat :=
  length (filter f l).

(** The tally in the words of the specification, the types taken as they
    are: ['error'] is critical, ['warning'] is serious, every other type is
    moderate. *)
Definition specImpact (issues : list Issue) : Impact :=
  mkImpact
    (count (fun i => strictEq (type i) "error") issues)
    (count (fun i => strictEq (type i) "warning") issues)
    (count (fun i => negb (strictEq (type i) "error")
                     && negb (strictEq (type i) "warning")) issues)
    0.

(** The pages of a crawl whose analysis succeeded, in crawl order. *)
Definition okPages (pa11y : string -> option Results) (urls : list string)
  : list PageAnalysis :=
  flat_map (fun u => match analyzePage pa11y u with
                     | Ok p => [p]
                     | Throw => []
                     end) urls.

Definition failedUrls (pa11y : string -> option Results) (urls : list string)
  : list string :=
  filter (fun u => match analyzePage pa11y u with
                   | Ok _ => false
                   | Throw => true
                   end) urls.

(** The scan results of the pages whose analysis succeeded: the scan
    returned and no issue of it has an inherited key. *)
Definition scans (pa11y : string -> option Results) (urls : list string)
  : list Results :=
  flat_map (fun u => match pa11y u with
                     | Some r => if existsb inheritedKey (r_issues r) then []
                                 else [r]
                     | None => []
                     end) urls.

(** ** reporter.js *)

(** The principle number and the criterion under which the loop of
    [ExcelReporter._mapViolationsToWCAG] files a code. *)
Definition resolve (c : option string) : option (string * string) :=
  match optMatch c reStructured with
  | Some m =>
      Some (group m 1, group m 4 ++ "." ++ group m 5 ++ "." ++ group m 6)
  | None =>
      match optMatch c reAlt with
      | Some m =>
          Some (group m 1, group m 1 ++ "." ++ group m 2 ++ "." ++ group m 3)
      | None => None
      end
  end.

Definition criterionOf (issue : Issue) : option string :=
  option_map snd (resolve (code issue)).

Definition mapCls (issue : Issue) : option (string * ExcelReporter.Criterion) :=
  match resolve (code issue) with
  | Some (p, c) => Some (c, ExcelReporter.mkCriterion ("Prinsipp " ++ p) c [])
  | None => None
  end.

Definition mapAdd (issue : Issue)
  : ExcelReporter.Criterion -> ExcelReporter.Criterion :=
  ExcelReporter.pushIssue (ExcelReporter.violationOf issue).

(** The issues filed under the criterion [c]. *)
Definition filed (c : string) (l : list Issue) : list Issue :=
  filter (fun i => match criterionOf i with
                   | Some c' => String.eqb c' c
                   | None => false
                   end) l.

(** The figures the worksheet shows for a criterion:
    [errorCount], [warningCount], [totalElements]. *)
Definition stats (v : ExcelReporter.Criterion) : nat * nat * nat :=
  (ExcelReporter.errorCount v, ExcelReporter.warningCount v,
   ExcelReporter.totalElements v).

(** An analysis of a crawl, as the renderers receive it. *)
Definition paged (pages : list PageAnalysis) : Analysis :=
  mkAnalysis (Some pages) None.

(** An analysis of one page. *)
Definition flat (issues : list Issue) : Analysis :=
  mkAnalysis None (Some issues).

(** ** Sample inputs *)

(** An issue as pa11y reports it. *)
Definition raw (c t m s : string) : Issue :=
  mkIssue (Some c) (Some t) (Some m) None (Some s) [] None.

Definition page (issues : list Issue) : PageAnalysis :=
  mkPageAnalysis "https://example.org/" "" issues (length issues).

(** Scenario 1 of the specification. *)
Definition lowContrast : Issue :=
  raw "WCAG2AA.Principle1.Guideline1_4.1_4_3.G18.Fail" "error"
      "Low contrast" "p.x".

(** A structured code whose guideline numbers are not those of its
    success criterion. *)
Definition mismatched : Issue :=
  raw "WCAG2AA.Principle1.Guideline1_4.2_5_3.G18.Fail" "error"
      "Low contrast" "p.x".

(** Scenario 2 of the specification. *)
Definition titleMissing : Issue :=
  mkIssue (Some "2.4.2") (Some "warning") (Some "Title missing")
          None None [] None.

(** An issue whose [code] is missing. *)
Definition noCode : Issue :=
  mkIssue None (Some "error") (Some "x") None (Some "p.x") [] None.

(** An issue whose [type] is missing. *)
Definition noType : Issue :=
  mkIssue (Some "2.4.2") None (Some "x") None (Some "p.x") [] None.

(** An issue whose type is written in capitals. *)
Definition shouting : Issue := raw "c" "ERROR" "m" "p.x".



(** Scenario 4 of the specification. *)
Definition sameTwice : list Issue :=
  [ raw "WCAG2AA.Principle1.Guideline1_1.1_1_1.H37" "error" "No alt" "img.a";
    raw "WCAG2AA.Principle1.Guideline1_1.1_1_1.H37" "error" "No alt" "img.b" ].

(** One error and five warnings. *)
Definition oneErrorFiveWarnings : ExcelReporter.Criterion :=
  ExcelReporter.mkCriterion "Prinsipp 1" "1.4.3"
    (ExcelReporter.mkViolation (Some "error") (Some "e") None 1
     :: repeat (ExcelReporter.mkViolation (Some "warning") (Some "w") None 1) 5).



(** A scanner that reports Scenario 4 on every page. *)
Definition twiceScan (url : string) : option Results :=
  Some (mkResults None sameTwice).

Definition pageA : PageAnalysis := page [lowContrast; titleMissing].
Definition pageB : PageAnalysis :=
  page [raw "WCAG2AA.Principle1.Guideline1_4.1_4_3.G145.Fail" "warning"
            "Contrast of large text" "h1"].

(** ** Further vocabulary *)

(** The number held by [affectedElements], 0 when it is missing. *)
Definition affectedOf (e : Issue) : nat :=
  match affectedElements e with
  | Some n => n
  | None => 0
  end.

(** The keys under which the items of a grouping loop are filed, in the
    order of the items. *)
Definition filedKeys {A V : Type} (cls : A -> option (string * V))
  (l : list A) : list string :=
  flat_map (fun a => match cls a with
                     | Some (k, _) => [k]
                     | None => []
                     end) l.

(** The sum of a measure over the values of a dictionary. *)
Definition total {V : Type} (mu : V -> nat) (o : JsObject.t V) : nat :=
  list_sum (map mu (JsObject.values o)).

(** Whether the analysis of a URL succeeds. *)
Definition analysed (pa11y : string -> option Results) (u : string) : bool :=
  match analyzePage pa11y u with
  | Ok _ => true
  | Throw => false
  end.

(** A site of three pages: the root links to two pages, which link back. *)
Definition siteHostname (url : string) : option string := Some "example.org".

Definition siteLinks (url baseDomain : string) : list string :=
  if String.eqb url "https://example.org/" then
    ["https://example.org/a"; "https://example.org/b"]
  else ["https://example.org/"].

(** A criterion identifier: three numbers separated by dots. *)
Definition criterionId (s : string) : Prop :=
  exists a b c,
    number a /\ number b /\ number c /\ s = a ++ "." ++ b ++ "." ++ c.

(** Whether the spreadsheet path files an issue at all. *)
Definition resolvable (i : Issue) : bool :=
  match criterionOf i with
  | Some _ => true
  | None => false
  end.

(** The criteria under which the spreadsheet path files a list of issues,
    in the order of the issues. *)
Definition criteriaOf (l : list Issue) : list string :=
  flat_map (fun i => match criterionOf i with
                     | Some c => [c]
                     | None => []
                     end) l.

(** The criterion under which the Markdown path files an issue that has a
    code. *)
Definition mdCriterionOf (i : Issue) : option string :=
  match code i with
  | Some c =>
      match exec reGuideline c with
      | Some m => Some (group m 1 ++ "." ++ group m 2 ++ "." ++ group m 5)
      | None => None
      end
  | None => None
  end.

Definition mdCls (i : Issue) : option (string * list WCAGMCPServer.Entry) :=
  match mdCriterionOf i with
  | Some c => Some (c, [])
  | None => None
  end.

Definition mdAdd (i : Issue) (l : list WCAGMCPServer.Entry)
  : list WCAGMCPServer.Entry :=
  (l ++ [WCAGMCPServer.entryOf i])%list.

Definition noCodeIn (i : Issue) : bool :=
  match code i with
  | Some _ => false
  | None => true
  end.

(** A structured code as the standard's test suite writes it: the
    guideline numbers are the first two numbers of the success criterion. *)
Definition consistentCode (s : string) : Prop :=
  exists pre p a b c post,
    lacks "P" pre = true /\ includes "Gu" pre = false
    /\ isDigit p = true /\ number a /\ number b /\ number c
    /\ noDigitAhead post
    /\ s = pre ++ "Principle" ++ String p (".Guideline" ++ a ++ "_" ++ b
             ++ "." ++ a ++ "_" ++ b ++ "_" ++ c ++ post).

(** What the two renderers keep of an issue. *)
Definition keptOfViolation (v : ExcelReporter.Violation)
  : option string * option string * option string * nat :=
  (ExcelReporter.v_type v, ExcelReporter.v_message v,
   ExcelReporter.v_selector v, ExcelReporter.v_affectedElements v).

Definition keptOfEntry (e : WCAGMCPServer.Entry)
  : option string * option string * option string * nat :=
  (WCAGMCPServer.e_type e, WCAGMCPServer.e_message e,
   WCAGMCPServer.e_selector e, WCAGMCPServer.e_count e).

(** * Properties *)

(** ** Dictionaries *)

Module JsObjectFacts.
Import JsObject.
Section Facts.
Context {V : Type}.
Implicit Types (o : JsObject.t V) (k : string) (v : V).

Lemma get_set_same k v o : get k (set k v o) = Some v.
Proof.
  induction o as [|[k' v'] o IH]; simpl.
  - now rewrite String.eqb_refl.
  - destruct (String.eqb k k') eqn:E; simpl; now rewrite E.
Qed.

Lemma get_set_other k k' v o :
  k <> k' -> get k' (set k v o) = get k' o.
Proof.
  intros Hne. induction o as [|[k0 v0] o IH]; simpl.
  - destruct (String.eqb k' k) eqn:E; [|reflexivity].
    apply String.eqb_eq in E. congruence.
  - destruct (String.eqb k k0) eqn:E; simpl.
    + apply String.eqb_eq in E. subst k0.
      destruct (String.eqb k' k) eqn:E'; [|reflexivity].
      apply String.eqb_eq in E'. congruence.
    + now rewrite IH.
Qed.

Lemma get_update_same k (f : V -> V) o :
  get k (update k f o) = option_map f (get k o).
Proof.
  induction o as [|[k' v'] o IH]; simpl; [reflexivity|].
  destruct (String.eqb k k') eqn:E; simpl; now rewrite E.
Qed.

Lemma get_update_other k k' (f : V -> V) o :
  k <> k' -> get k' (update k f o) = get k' o.
Proof.
  intros Hne. induction o as [|[k0 v0] o IH]; simpl; [reflexivity|].
  destruct (String.eqb k k0) eqn:E; simpl.
  - apply String.eqb_eq in E. subst k0.
    destruct (String.eqb k' k) eqn:E'; [|reflexivity].
    apply String.eqb_eq in E'. congruence.
  - now rewrite IH.
Qed.

Lemma keys_update k (f : V -> V) o : keys (update k f o) = keys o.
Proof.
  unfold keys. induction o as [|[k' v'] o IH]; simpl; [reflexivity|].
  destruct (String.eqb k k'); simpl; [reflexivity|]. now f_equal.
Qed.

Lemma get_None_keys k o : get k o = None <-> ~ In k (keys o).
Proof.
  unfold keys. induction o as [|[k' v'] o IH]; simpl.
  - tauto.
  - destruct (String.eqb k k') eqn:E.
    + apply String.eqb_eq in E. subst. split; [discriminate|tauto].
    + apply String.eqb_neq in E. rewrite IH. split.
      * intros H [H'|H']; [congruence|tauto].
      * tauto.
Qed.

Lemma keys_set_new k v o :
  get k o = None -> keys (set k v o) = (keys o ++ [k])%list.
Proof.
  unfold keys. induction o as [|[k' v'] o IH]; simpl; [reflexivity|].
  destruct (String.eqb k k') eqn:E; [discriminate|].
  intros H. simpl. now rewrite IH.
Qed.

Lemma In_get k v o : NoDup (keys o) -> In (k, v) o -> get k o = Some v.
Proof.
  unfold keys. induction o as [|[k' v'] o IH]; simpl; [tauto|].
  intros Hnd [H|H].
  - inversion H; subst. now rewrite String.eqb_refl.
  - inversion Hnd as [|? ? Hnot Hnd']; subst.
    destruct (String.eqb k k') eqn:E.
    + apply String.eqb_eq in E. subst k'. exfalso. apply Hnot.
      change k with (fst (k, v)). now apply in_map.
    + now apply IH.
Qed.

Lemma get_upsert_same k init f o :
  get k (upsert k init f o)
  = Some (f match get k o with Some v => v | None => init end).
Proof.
  unfold upsert. rewrite get_update_same.
  destruct (get k o) eqn:E; [now rewrite E|].
  now rewrite get_set_same.
Qed.

Lemma get_upsert_other k k' init f o :
  k <> k' -> get k' (upsert k init f o) = get k' o.
Proof.
  intros Hne. unfold upsert. rewrite get_update_other by assumption.
  destruct (get k o); [reflexivity|]. now apply get_set_other.
Qed.

Lemma keys_upsert k init f o :
  keys (upsert k init f o)
  = match get k o with
    | Some _ => keys o
    | None => (keys o ++ [k])%list
    end.
Proof.
  unfold upsert. rewrite keys_update.
  destruct (get k o) eqn:E; [reflexivity|]. now apply keys_set_new.
Qed.

Lemma NoDup_keys_upsert k init f o :
  NoDup (keys o) -> NoDup (keys (upsert k init f o)).
Proof.
  intros Hnd. rewrite keys_upsert. destruct (get k o) eqn:E; [assumption|].
  apply get_None_keys in E.
  apply NoDup_rev in Hnd. rewrite <- (rev_involutive (keys o ++ [k])).
  apply NoDup_rev. rewrite rev_app_distr. simpl. constructor; [|assumption].
  now rewrite <- in_rev.
Qed.

Lemma In_keys_upsert k k' init f o :
  In k' (keys (upsert k init f o)) <-> k' = k \/ In k' (keys o).
Proof.
  rewrite keys_upsert. destruct (get k o) eqn:E.
  - split; [tauto|]. intros [->|H]; [|assumption].
    destruct (in_dec string_dec k (keys o)) as [Hin|Hnot]; [assumption|].
    apply get_None_keys in Hnot. congruence.
  - rewrite in_app_iff. simpl. split.
    + intros [H|[H|[]]]; [now right|now left].
    + intros [H|H]; [right; left; congruence|now left].
Qed.

(** With distinct keys, one property answers to a key. *)
Lemma filter_key_unique k v o :
  NoDup (keys o) -> get k o = Some v ->
  filter (fun kv => String.eqb (fst kv) k) o = [(k, v)].
Proof.
  unfold keys. induction o as [|[k' v'] o IH]; simpl; [discriminate|].
  intros Hnd. inversion Hnd as [|? ? Hnot Hnd']; subst.
  rewrite (String.eqb_sym k' k). destruct (String.eqb k k') eqn:E.
  - apply String.eqb_eq in E. subst k'. intros [= ->]. f_equal.
    apply (proj2 (get_None_keys k o)) in Hnot.
    clear -Hnot. induction o as [|[k0 v0] o IH]; [reflexivity|].
    simpl in *. rewrite (String.eqb_sym k0 k).
    destruct (String.eqb k k0); [discriminate|]. now apply IH.
  - intros H. now apply IH.
Qed.
End Facts.
End JsObjectFacts.

(** ** Regular expressions *)

Module RegexFacts.

Lemma append_assoc (a b c : string) : (a ++ b) ++ c = a ++ (b ++ c).
Proof. induction a as [|x a IH]; simpl; [reflexivity|now rewrite IH]. Qed.

Lemma append_nil_r (a : string) : a ++ "" = a.
Proof. induction a as [|x a IH]; simpl; [reflexivity|now rewrite IH]. Qed.

Lemma length_append (a b : string) :
  String.length (a ++ b) = String.length a + String.length b.
Proof. induction a as [|c a IH]; simpl; [reflexivity|now rewrite IH]. Qed.

Lemma append_suffix_neq (m s : string) : s <> "" -> m ++ s <> m.
Proof.
  intros Hs H. apply (f_equal String.length) in H.
  rewrite length_append in H. destruct s; [congruence|]. simpl in H. lia.
Qed.

Lemma lacks_app c a b : lacks c (a ++ String c b) = false.
Proof.
  induction a as [|x a IH]; simpl.
  - now rewrite Ascii.eqb_refl.
  - rewrite IH. apply andb_false_r.
Qed.

Lemma withGroup_Some g r gs rest :
  withGroup g r = Some (gs, rest) ->
  exists gs', r = Some (gs', rest) /\ gs = g :: gs'.
Proof.
  destruct r as [[gs' rest']|]; simpl; [|discriminate].
  intros [= <- <-]. now exists gs'.
Qed.

(** A match of [(\d+)] takes one digit or more and hands the rest on. *)
Lemma digsThen_sound k acc s gs rest :
  digsThen k acc s = Some (gs, rest) ->
  exists ds s2 gs',
    number ds /\ s = ds ++ s2 /\ k s2 = Some (gs', rest)
    /\ gs = (acc ++ ds) :: gs'.
Proof.
  revert acc. induction s as [|c s IH]; intros acc; simpl; [discriminate|].
  destruct (isDigit c) eqn:Hc; [|discriminate].
  destruct (digsThen k (acc ++ String c "") s) as [r|] eqn:Hmore.
  - intros [= ->].
    destruct (IH _ Hmore) as (ds & s2 & gs' & [_ Hd] & -> & Hk & ->).
    exists (String c ds), s2, gs'. repeat split.
    + discriminate.
    + simpl. now rewrite Hc, Hd.
    + assumption.
    + now rewrite append_assoc.
  - intros H. apply withGroup_Some in H as (gs' & Hk & ->).
    exists (String c ""), s, gs'. repeat split; try assumption.
    + discriminate.
    + simpl. now rewrite Hc.
Qed.

(** The whole run of digits is taken when the rest of the pattern accepts
    what follows it. *)
Lemma digsThen_complete k acc ds s2 gs rest :
  number ds -> k s2 = Some (gs, rest) -> noDigitAhead s2 ->
  digsThen k acc (ds ++ s2) = Some ((acc ++ ds) :: gs, rest).
Proof.
  intros [Hne Hd] Hk Hs2. revert acc.
  induction ds as [|c ds IH]; intros acc; [congruence|].
  simpl in Hd. apply andb_true_iff in Hd as [Hc Hd]. simpl. rewrite Hc.
  destruct ds as [|c' ds].
  - simpl. replace (digsThen k (acc ++ String c "") s2) with
      (@None (list string * string)).
    + now rewrite Hk.
    + destruct s2 as [|x s2]; simpl; [reflexivity|].
      simpl in Hs2. now rewrite Hs2.
  - rewrite (IH ltac:(discriminate) Hd (acc ++ String c "")).
    now rewrite append_assoc.
Qed.

Lemma matchHere_sound p s gs rest :
  matchHere p s = Some (gs, rest) ->
  s = render p gs ++ rest /\ Forall number gs /\ length gs = groups p.
Proof.
  revert s gs rest. induction p as [|t p IH]; intros s gs rest; simpl.
  - intros [= <- <-]. auto.
  - destruct t.
    + destruct s as [|c' s]; [discriminate|].
      destruct (Ascii.eqb c c') eqn:E; [|discriminate].
      apply Ascii.eqb_eq in E. subst c'. intros H.
      destruct (IH _ _ _ H) as (-> & Hn & Hl). auto.
    + destruct s as [|c' s]; [discriminate|].
      destruct (isDigit c') eqn:E; [|discriminate].
      intros H. apply withGroup_Some in H as (gs' & H & ->).
      destruct (IH _ _ _ H) as (-> & Hn & Hl). repeat split.
      * constructor; [|assumption]. split; [discriminate|].
        simpl. now rewrite E.
      * simpl. now rewrite Hl.
    + intros H.
      apply digsThen_sound in H as (ds & s2 & gs' & Hd & -> & H & ->).
      destruct (IH _ _ _ H) as (-> & Hn & Hl). simpl. repeat split.
      * now rewrite append_assoc.
      * now constructor.
      * now rewrite Hl.
Qed.

Lemma search_sound p s gs rest :
  search p s = Some (gs, rest) ->
  exists pre,
    s = pre ++ render p gs ++ rest /\ Forall number gs /\ length gs = groups p.
Proof.
  induction s as [|c s IH]; simpl.
  - destruct (matchHere p "") as [r|] eqn:E; [|discriminate].
    intros [= ->]. exists "". now apply matchHere_sound.
  - destruct (matchHere p (String c s)) as [r|] eqn:E.
    + intros [= ->]. exists "". now apply matchHere_sound.
    + intros H. destruct (IH H) as (pre & -> & Hn & Hl).
      now exists (String c pre).
Qed.

(** A match is a part of the subject, and its groups are numbers. *)
Lemma exec_sound p s gs :
  exec p s = Some gs ->
  exists pre rest,
    s = pre ++ render p gs ++ rest /\ Forall number gs /\ length gs = groups p.
Proof.
  unfold exec. destruct (search p s) as [[gs' rest]|] eqn:E; [|discriminate].
  simpl. intros [= <-]. apply search_sound in E as (pre & H).
  now exists pre, rest.
Qed.

Lemma matchHere_Digs p ds s gs rest :
  number ds -> matchHere p s = Some (gs, rest) -> noDigitAhead s ->
  matchHere (Digs :: p) (ds ++ s) = Some (ds :: gs, rest).
Proof.
  intros Hd Hk Hs. simpl. now rewrite (digsThen_complete _ "" ds s gs rest).
Qed.

(** The leftmost match wins: a prefix in which the first character of the
    pattern does not occur is skipped. *)
Lemma search_skip c p pre s r :
  lacks c pre = true -> matchHere (Lit c :: p) s = Some r ->
  search (Lit c :: p) (pre ++ s) = Some r.
Proof.
  intros Hpre Hm. induction pre as [|x pre IH].
  - simpl append. destruct s; simpl search; simpl in Hm; now rewrite Hm.
  - simpl in Hpre. apply andb_true_iff in Hpre as [Hx Hpre].
    apply negb_true_iff in Hx. simpl. rewrite Hx. now apply IH.
Qed.

(** The last group [(\d+)] of a pattern matches wherever a digit stands. *)
Lemma digsThen_last acc c s :
  isDigit c = true ->
  exists g rest, digsThen (matchHere []) acc (String c s) = Some ([g], rest).
Proof.
  intros Hc. simpl. rewrite Hc.
  destruct (digsThen _ (acc ++ String c "") s) as [[gs rest]|] eqn:E.
  - apply digsThen_sound in E as (ds & s2 & gs' & _ & _ & Hk & ->).
    simpl in Hk. injection Hk as <- <-. eauto.
  - simpl. eauto.
Qed.

(** A match somewhere makes the search succeed, there or further left. *)
Lemma search_found p pre s r :
  matchHere p s = Some r -> exists r', search p (pre ++ s) = Some r'.
Proof.
  intros Hm. induction pre as [|x pre IH].
  - simpl append. destruct s; simpl search; rewrite Hm; eauto.
  - simpl. destruct (matchHere p (String x (pre ++ s))); eauto.
Qed.

Ltac match_digs :=
  repeat first
    [ apply matchHere_Digs; [assumption| |reflexivity || assumption]
    | reflexivity
    | progress cbn [append matchHere Ascii.eqb Bool.eqb] ].

(** The structured pattern on a code of the structured shape. *)
Lemma exec_structured pre p g1 g2 a b c post :
  lacks "P" pre = true -> isDigit p = true ->
  number g1 -> number g2 -> number a -> number b -> number c ->
  noDigitAhead post ->
  exec reStructured
    (pre ++ "Principle" ++ String p (".Guideline" ++ g1 ++ "_" ++ g2 ++ "."
       ++ a ++ "_" ++ b ++ "_" ++ c ++ post))
  = Some [String p ""; g1; g2; a; b; c].
Proof.
  intros Hpre Hp H1 H2 Ha Hb Hc Hpost. unfold exec, reStructured.
  cbn [concat lit app].
  rewrite (search_skip "P" _ pre _ ([String p ""; g1; g2; a; b; c], post));
    [reflexivity|assumption|].
  cbn [append matchHere Ascii.eqb Bool.eqb].
  rewrite Hp.
  cbn [append matchHere Ascii.eqb Bool.eqb].
  replace (digsThen _ "" _) with
    (Some ([g1; g2; a; b; c], post)); [reflexivity|].
  symmetry.
  change (matchHere (Digs :: Lit "_" :: Digs :: Lit "." :: Digs :: Lit "_"
                       :: Digs :: Lit "_" :: [Digs])
            (g1 ++ "_" ++ g2 ++ "." ++ a ++ "_" ++ b ++ "_" ++ c ++ post)
          = Some ([g1; g2; a; b; c], post)).
  match_digs.
Qed.

(** The alternative pattern finds a triple in every code that holds one. *)
Lemma exec_alt_found pre a b c post :
  number a -> number b -> number c ->
  exists gs,
    exec reAlt (pre ++ a ++ "." ++ b ++ "." ++ c ++ post) = Some gs.
Proof.
  intros Ha Hb [Hne Hc].
  destruct c as [|d c]; [congruence|]. simpl in Hc.
  apply andb_true_iff in Hc as [Hd _].
  destruct (digsThen_last "" d (c ++ post) Hd) as (g & rest & Hlast).
  assert (Hm : matchHere reAlt (a ++ "." ++ b ++ "." ++ String d c ++ post)
               = Some ([a; b; g], rest)).
  { unfold reAlt. cbn [concat lit app].
    apply matchHere_Digs; [assumption| |reflexivity].
    cbn [append matchHere Ascii.eqb Bool.eqb].
    change (matchHere (Digs :: Lit "." :: [Digs])
              (b ++ "." ++ String d (c ++ post)) = Some ([b; g], rest)).
    apply matchHere_Digs; [assumption| |reflexivity].
    cbn [append matchHere Ascii.eqb Bool.eqb]. exact Hlast. }
  destruct (search_found _ pre _ _ Hm) as ([gs rest'] & Hs).
  exists gs. unfold exec. now rewrite Hs.
Qed.

End RegexFacts.

(** ** Grouping loops *)

Module GroupFoldFacts.
Import JsObject JsObjectFacts GroupFold.
Section Fold.
Context {A V : Type}.
Variable cls : A -> option (string * V).
Variable add : A -> V -> V.

Lemma step_eq o a :
  step cls add o a
  = match cls a with
    | Some (k, init) => upsert k init (add a) o
    | None => o
    end.
Proof. reflexivity. Qed.

Lemma files_eq k a :
  files cls k a
  = match cls a with
    | Some (k', _) => String.eqb k' k
    | None => false
    end.
Proof. reflexivity. Qed.

(** The entry of a key after the loop: the fold of the items filed there. *)
Lemma get_fold k l o :
  get k (fold_left (step cls add) l o)
  = match get k o with
    | Some v => Some (absorb add v (hits cls k l))
    | None =>
        option_map (fun v => absorb add v (hits cls k l))
                   (fresh cls (hits cls k l))
    end.
Proof.
  revert o. induction l as [|a l IH]; intros o.
  - simpl. now destruct (get k o).
  - simpl fold_left. rewrite IH. unfold hits. simpl filter.
    rewrite step_eq, files_eq.
    destruct (cls a) as [[ka init]|] eqn:Ha.
    + destruct (String.eqb ka k) eqn:E.
      * apply String.eqb_eq in E. subst ka. rewrite get_upsert_same.
        destruct (get k o); simpl; now rewrite ?Ha.
      * apply String.eqb_neq in E. now rewrite get_upsert_other.
    + reflexivity.
Qed.

Lemma NoDup_keys_fold l o :
  NoDup (keys o) -> NoDup (keys (fold_left (step cls add) l o)).
Proof.
  revert o. induction l as [|a l IH]; intros o Hnd; [assumption|].
  simpl. apply IH. rewrite step_eq.
  destruct (cls a) as [[ka init]|]; [|assumption].
  now apply NoDup_keys_upsert.
Qed.

Lemma In_keys_fold k l o :
  In k (keys (fold_left (step cls add) l o))
  <-> In k (keys o) \/ exists a, In a l /\ files cls k a = true.
Proof.
  revert o. induction l as [|a l IH]; intros o.
  - simpl. split; [tauto|]. intros [H|(a & [] & _)]. assumption.
  - simpl fold_left. rewrite IH, step_eq.
    destruct (cls a) as [[ka init]|] eqn:Ha.
    + rewrite In_keys_upsert. split.
      * intros [[->|H]|(b & Hb & Hf)].
        -- right. exists a. split; [now left|].
           rewrite files_eq. now rewrite Ha, String.eqb_refl.
        -- now left.
        -- right. exists b. split; [now right|assumption].
      * intros [H|(b & [->|Hb] & Hf)].
        -- left. now right.
        -- left. left. rewrite files_eq, Ha in Hf.
           apply String.eqb_eq in Hf. congruence.
        -- right. now exists b.
    + split.
      * intros [H|(b & Hb & Hf)]; [now left|].
        right. exists b. split; [now right|assumption].
      * intros [H|(b & [->|Hb] & Hf)]; [now left| |right; now exists b].
        rewrite files_eq in Hf. now rewrite Ha in Hf.
Qed.

(** Every entry of the result is the fold of the items filed under it. *)
Lemma In_fold k v l :
  In (k, v) (fold_left (step cls add) l []) ->
  exists a rest init,
    hits cls k l = a :: rest /\ cls a = Some (k, init)
    /\ v = absorb add init (a :: rest).
Proof.
  intros Hin. apply In_get in Hin; [|apply NoDup_keys_fold; constructor].
  rewrite get_fold in Hin. simpl in Hin.
  destruct (hits cls k l) as [|a rest] eqn:Hh; [discriminate|].
  assert (Hf : files cls k a = true).
  { assert (In a (hits cls k l)) as Ha by (rewrite Hh; now left).
    unfold hits in Ha. now apply filter_In in Ha. }
  rewrite files_eq in Hf. simpl in Hin.
  destruct (cls a) as [[ka init]|] eqn:Ha; [|discriminate].
  apply String.eqb_eq in Hf. subst ka. simpl in Hin.
  injection Hin as <-. now exists a, rest, init.
Qed.
End Fold.
End GroupFoldFacts.

(** ** analyzer.js: grouping by type *)

Module AnalyzerFacts.
Import JsObject JsObjectFacts GroupFold GroupFoldFacts.

(** A loop whose body throws on bad items only. *)
Lemma forOf_pure {A S} (bad : A -> bool) (g : S -> A -> S)
  (body : S -> A -> result S) l s :
  (forall s a, body s a = if bad a then Throw else Ok (g s a)) ->
  forOf body l s = if existsb bad l then Throw else Ok (fold_left g l s).
Proof.
  intros H. revert s. induction l as [|a l IH]; intros s; [reflexivity|].
  simpl. rewrite H. destruct (bad a); simpl; [reflexivity|apply IH].
Qed.

Lemma keys_fileIssue o i k :
  In k (keys (fileIssue o i)) -> In k (keys o) \/ k = groupKey i.
Proof.
  unfold fileIssue. rewrite keys_update.
  destruct (get (groupKey i) o) eqn:Hg; [now left|].
  rewrite keys_set_new by assumption. rewrite in_app_iff. simpl. intuition.
Qed.

Lemma groupStep_own o i :
  ownKeys o ->
  groupStep o i = if inheritedKey i then Throw else Ok (fileIssue o i).
Proof.
  intros Hown. unfold groupStep, property, fileIssue, inheritedKey.
  destruct (get (groupKey i) o) eqn:Hg.
  - assert (Hin : In (groupKey i) (keys o)).
    { destruct (in_dec string_dec (groupKey i) (keys o)) as [H|H]; [exact H|].
      apply get_None_keys in H. congruence. }
    now rewrite (Hown _ Hin).
  - destruct (existsb (String.eqb (groupKey i)) inherited); reflexivity.
Qed.

Lemma forOf_groupStep issues o :
  ownKeys o ->
  forOf groupStep issues o
  = if existsb inheritedKey issues then Throw
    else Ok (fold_left fileIssue issues o).
Proof.
  revert o. induction issues as [|i issues IH]; intros o Hown; [reflexivity|].
  cbn [forOf existsb fold_left]. rewrite (groupStep_own _ _ Hown).
  destruct (inheritedKey i) eqn:Hi; [reflexivity|].
  cbn [bind orb]. apply IH. intros k Hk.
  apply keys_fileIssue in Hk as [Hk| ->]; [now apply Hown|exact Hi].
Qed.

(** [_groupIssuesByType] throws when the key of some issue is inherited,
    and returns the entries of the dictionary otherwise. *)
Lemma groupIssuesByType_eq issues :
  _groupIssuesByType issues
  = if existsb inheritedKey issues then Throw
    else Ok (groupedEntries issues).
Proof.
  unfold _groupIssuesByType. rewrite forOf_groupStep by (intros k []).
  destruct (existsb inheritedKey issues); reflexivity.
Qed.

Lemma inheritedKey_In i : inheritedKey i = true <-> In (groupKey i) inherited.
Proof.
  unfold inheritedKey. rewrite existsb_exists. split.
  - intros (k & Hk & E). apply String.eqb_eq in E. now rewrite E.
  - intros H. exists (groupKey i). split; [exact H|apply String.eqb_refl].
Qed.

Lemma groupIssuesByType_Throw issues :
  _groupIssuesByType issues = Throw
  <-> exists i, In i issues /\ In (groupKey i) inherited.
Proof.
  rewrite groupIssuesByType_eq.
  destruct (existsb inheritedKey issues) eqn:E.
  - split; [intros _|reflexivity].
    apply existsb_exists in E as (i & Hi & Hk). exists i.
    split; [exact Hi|now apply inheritedKey_In].
  - split; [discriminate|]. intros (i & Hi & Hk).
    assert (existsb inheritedKey issues = true); [|congruence].
    apply existsb_exists. exists i. split; [exact Hi|now apply inheritedKey_In].
Qed.

Lemma groupIssuesByType_Ok issues out :
  _groupIssuesByType issues = Ok out ->
  existsb inheritedKey issues = false /\ out = groupedEntries issues.
Proof.
  rewrite groupIssuesByType_eq.
  destruct (existsb inheritedKey issues); [discriminate|].
  intros [= <-]. now split.
Qed.

Lemma fold_fileIssue issues o :
  fold_left fileIssue issues o
  = fold_left (step groupCls groupAdd) issues o.
Proof.
  revert o. induction issues as [|i issues IH]; intros o; [reflexivity|].
  simpl. now rewrite IH.
Qed.

Lemma absorb_elements g l :
  absorb groupAdd g l
  = mkIssue (code g) (type g) (message g) (context g) (selector g)
            (elements g ++ map elementOf l)%list (affectedElements g).
Proof.
  unfold absorb. revert g.
  induction l as [|a l IH]; intros g.
  - simpl. rewrite app_nil_r. now destruct g.
  - simpl fold_left. rewrite IH. unfold groupAdd, pushElement, elementOf.
    simpl. now rewrite <- app_assoc.
Qed.

Lemma withCount_absorb a merged :
  withCount (absorb groupAdd (newGroup a) merged) = summary a merged.
Proof.
  rewrite absorb_elements. unfold withCount, summary. simpl.
  now rewrite length_map.
Qed.

Lemma NoDup_keys_grouped issues : NoDup (keys (grouped issues)).
Proof.
  unfold grouped. rewrite fold_fileIssue.
  apply NoDup_keys_fold. constructor.
Qed.

Lemma In_grouped k g issues :
  In (k, g) (grouped issues) ->
  exists a rest,
    sameKey k issues = a :: rest /\ groupKey a = k
    /\ g = absorb groupAdd (newGroup a) (a :: rest).
Proof.
  unfold grouped. rewrite fold_fileIssue. intros H.
  apply In_fold in H as (a & rest & init & Hh & Hc & ->).
  injection Hc as <- <-. now exists a, rest.
Qed.

Lemma get_grouped i issues :
  In i issues ->
  exists a rest,
    sameKey (groupKey i) issues = a :: rest /\ groupKey a = groupKey i
    /\ get (groupKey i) (grouped issues)
       = Some (absorb groupAdd (newGroup a) (a :: rest)).
Proof.
  intros Hin.
  assert (Hi : In i (sameKey (groupKey i) issues)).
  { apply filter_In. split; [assumption|apply String.eqb_refl]. }
  destruct (sameKey (groupKey i) issues) as [|a rest] eqn:Hs; [contradiction|].
  assert (Ha : groupKey a = groupKey i).
  { assert (In a (sameKey (groupKey i) issues)) as H by (rewrite Hs; now left).
    apply filter_In in H as [_ H]. now apply String.eqb_eq. }
  exists a, rest. repeat split; [assumption|].
  unfold grouped. rewrite fold_fileIssue, get_fold. simpl.
  change (hits groupCls (groupKey i) issues) with (sameKey (groupKey i) issues).
  rewrite Hs. reflexivity.
Qed.

(** Every returned entry summarises the raw issues that share its key,
    and carries the fields of the first of them. *)
Lemma In_groupedEntries e issues :
  In e (groupedEntries issues) ->
  exists a rest,
    sameKey (groupKey a) issues = a :: rest /\ e = summary a (a :: rest).
Proof.
  unfold groupedEntries, values. rewrite map_map.
  intros H. apply in_map_iff in H as ([k g] & <- & H). simpl.
  apply In_grouped in H as (a & rest & Hs & <- & ->).
  exists a, rest. split; [assumption|apply withCount_absorb].
Qed.

(** The raw issues that share the key of [i] have exactly one entry. *)
Lemma groupIssuesByType_unique i issues :
  In i issues ->
  exists a rest,
    sameKey (groupKey i) issues = a :: rest
    /\ filter (fun e => String.eqb (groupKey e) (groupKey i))
              (groupedEntries issues)
       = [summary a (a :: rest)].
Proof.
  intros Hin. destruct (get_grouped i issues Hin) as (a & rest & Hs & Ha & Hg).
  exists a, rest. split; [assumption|].
  unfold groupedEntries, values. fold (grouped issues).
  rewrite map_map.
  assert (Hf : forall l : JsObject.t Issue,
             filter (fun e => String.eqb (groupKey e) (groupKey i))
                    (map (fun x => withCount (snd x)) l)
             = map (fun x => withCount (snd x))
                   (filter (fun x => String.eqb (groupKey (withCount (snd x)))
                                                (groupKey i)) l)).
  { induction l as [|x l IH]; simpl; [reflexivity|].
    destruct (String.eqb _ _); simpl; now rewrite IH. }
  rewrite Hf.
  rewrite (filter_ext_in _ (fun kv => String.eqb (fst kv) (groupKey i))).
  - rewrite (filter_key_unique _ _ _ (NoDup_keys_grouped issues) Hg).
    cbn [map snd]. now rewrite withCount_absorb.
  - intros [k g] Hkg. simpl.
    apply In_grouped in Hkg as (a' & rest' & _ & <- & ->).
    rewrite absorb_elements. reflexivity.
Qed.

(** The number of entries is the number of distinct keys. *)
Lemma length_groupedEntries issues :
  length (groupedEntries issues) = distinctKeys issues.
Proof.
  unfold groupedEntries, values, distinctKeys.
  rewrite !length_map. fold (grouped issues).
  rewrite <- (length_map fst). fold (keys (grouped issues)).
  apply Permutation_length, NoDup_Permutation.
  - apply NoDup_keys_grouped.
  - apply NoDup_nodup.
  - intros k. rewrite nodup_In. unfold grouped.
    rewrite fold_fileIssue, In_keys_fold. simpl. split.
    + intros [[]|(a & Ha & Hf)]. apply String.eqb_eq in Hf. subst k.
      now apply in_map.
    + intros H. apply in_map_iff in H as (a & <- & Ha). right.
      exists a. split; [assumption|apply String.eqb_refl].
Qed.

Lemma affectsSuffix_many n :
  1 < n -> affectsSuffix n = " (Affects " ++ showNat n ++ " elements)".
Proof.
  intros H. unfold affectsSuffix. apply Nat.ltb_lt in H. now rewrite H.
Qed.

(** Keys and pairs: the separator is unambiguous when it cannot occur in
    the type. *)
Lemma key_injective c1 t1 c2 t2 :
  lacks "_" t1 = true -> lacks "_" t2 = true ->
  c1 ++ "_" ++ t1 = c2 ++ "_" ++ t2 -> c1 = c2 /\ t1 = t2.
Proof.
  intros H1 H2. revert c2. induction c1 as [|x c1 IH]; intros c2 H.
  - destruct c2 as [|y c2]; simpl in H.
    + injection H as ->. auto.
    + injection H as <- ->. simpl in H1.
      rewrite RegexFacts.lacks_app in H1. discriminate.
  - destruct c2 as [|y c2]; simpl in H.
    + injection H as -> <-. simpl in H2.
      rewrite RegexFacts.lacks_app in H2. discriminate.
    + injection H as -> H. destruct (IH _ H) as [-> ->]. auto.
Qed.

Lemma groupKey_pairOf i j :
  plainType i = true -> plainType j = true ->
  groupKey i = groupKey j -> pairOf i = pairOf j.
Proof.
  unfold plainType, groupKey, pairOf.
  destruct (code i) as [ci|], (type i) as [ti|]; try discriminate.
  destruct (code j) as [cj|], (type j) as [tj|]; try discriminate.
  simpl. intros Hi Hj H. destruct (key_injective _ _ _ _ Hi Hj H). congruence.
Qed.

Lemma pairOf_groupKey i j : pairOf i = pairOf j -> groupKey i = groupKey j.
Proof. unfold pairOf, groupKey. now intros [= -> ->]. Qed.

Lemma length_nodup_map {A B C} (decB : forall x y : B, {x = y} + {x <> y})
  (decC : forall x y : C, {x = y} + {x <> y}) (f : A -> B) (g : A -> C) l :
  (forall x y, In x l -> In y l -> f x = f y <-> g x = g y) ->
  length (nodup decB (map f l)) = length (nodup decC (map g l)).
Proof.
  induction l as [|a l IH]; intros H; [reflexivity|].
  assert (IH' : length (nodup decB (map f l)) = length (nodup decC (map g l))).
  { apply IH. intros x y Hx Hy. apply H; now right. }
  simpl.
  destruct (in_dec decB (f a) (map f l)) as [Hf|Hf],
           (in_dec decC (g a) (map g l)) as [Hg|Hg]; simpl; try congruence.
  - exfalso. apply Hg. apply in_map_iff in Hf as (x & Hx & Hin).
    apply in_map_iff. exists x. split; [|assumption].
    apply H; [now right|now left|assumption].
  - exfalso. apply Hf. apply in_map_iff in Hg as (x & Hx & Hin).
    apply in_map_iff. exists x. split; [|assumption].
    apply H; [now right|now left|assumption].
Qed.

Lemma distinctKeys_pairs issues :
  forallb plainType issues = true -> distinctKeys issues = distinctPairs issues.
Proof.
  intros H. rewrite forallb_forall in H.
  apply length_nodup_map. intros x y Hx Hy. split.
  - apply groupKey_pairOf; now apply H.
  - apply pairOf_groupKey.
Qed.

End AnalyzerFacts.

(** ** analyzer.js: the tally and the crawl *)

Module CrawlFacts.
Import AnalyzerFacts.

Lemma Permutation_filter {A} (f : A -> bool) l l' :
  Permutation l l' -> Permutation (filter f l) (filter f l').
Proof.
  induction 1 as [|x l l' _ IH|x y l|l l' l'' _ IH1 _ IH2]; simpl.
  - constructor.
  - destruct (f x); [now constructor|assumption].
  - destruct (f x), (f y); try reflexivity. constructor.
  - now transitivity (filter f l').
Qed.

Lemma fold_impactStep issues impact :
  fold_left impactStep issues impact
  = mkImpact (critical impact + count isCritical issues)
             (serious impact + count isSerious issues)
             (moderate impact + count isModerate issues)
             (minor impact).
Proof.
  revert impact. induction issues as [|i issues IH]; intros impact.
  - simpl. unfold count. simpl. rewrite !Nat.add_0_r. now destruct impact.
  - simpl fold_left. rewrite IH. unfold count. simpl filter.
    unfold impactStep, isCritical at 2, isSerious at 2, isModerate at 2,
      isCritical.
    destruct (String.eqb (impactType i) "error");
      [|destruct (String.eqb (impactType i) "warning")];
      cbn [negb andb length critical serious moderate minor];
      f_equal; lia.
Qed.

Lemma groupIssuesByImpact_counts issues :
  _groupIssuesByImpact issues
  = mkImpact (count isCritical issues) (count isSerious issues)
             (count isModerate issues) 0.
Proof. unfold _groupIssuesByImpact. now rewrite fold_impactStep. Qed.

Lemma groupIssuesByImpact_Permutation l l' :
  Permutation l l' -> _groupIssuesByImpact l = _groupIssuesByImpact l'.
Proof.
  intros H. rewrite !groupIssuesByImpact_counts. unfold count.
  now rewrite !(Permutation_length (Permutation_filter _ _ _ H)).
Qed.

Lemma length_concat {A} (l : list (list A)) :
  length (concat l) = list_sum (map (@length A) l).
Proof.
  induction l as [|x l IH]; simpl; [reflexivity|].
  now rewrite length_app, IH.
Qed.

Section Crawl.
Variable pa11y : string -> option Results.

Lemma fold_crawlStep urls pages failed all :
  fold_left (crawlStep pa11y) urls (pages, failed, all)
  = ((pages ++ okPages pa11y urls)%list,
     (failed ++ failedUrls pa11y urls)%list,
     (all ++ concat (map p_issues (okPages pa11y urls)))%list).
Proof.
  revert pages failed all.
  induction urls as [|u urls IH]; intros pages failed all.
  - simpl. now rewrite !app_nil_r.
  - cbn [fold_left].
    assert (Hs : crawlStep pa11y (pages, failed, all) u
                 = match analyzePage pa11y u with
                   | Ok p => ((pages ++ [p])%list, failed,
                              (all ++ p_issues p)%list)
                   | Throw => (pages, (failed ++ [u])%list, all)
                   end) by reflexivity.
    rewrite Hs. clear Hs. unfold okPages, failedUrls. simpl.
    destruct (analyzePage pa11y u) as [p|]; rewrite IH; simpl;
      now rewrite <- ?app_assoc.
Qed.

(** The result of a crawl, field by field. *)
Lemma analyzeWebsite_fields urls :
  analyzeWebsite pa11y urls
  = let pages := okPages pa11y (uniq [] urls) in
    let allIssues := concat (map p_issues pages) in
    mkWebsiteAnalysis (hd "" (uniq [] urls)) (length pages)
      (length allIssues) pages (_groupIssuesByImpact allIssues)
      (failedUrls pa11y (uniq [] urls)).
Proof.
  unfold analyzeWebsite. now rewrite fold_crawlStep.
Qed.

(** [analyzePage] throws when the scan fails or the key of some issue is
    inherited, and returns the grouped entries otherwise. *)
Lemma analyzePage_eq u :
  analyzePage pa11y u
  = match pa11y u with
    | None => Throw
    | Some r =>
        if existsb inheritedKey (r_issues r) then Throw
        else Ok (mkPageAnalysis u
                   (match r_pageTitle r with Some t => t | None => "" end)
                   (groupedEntries (r_issues r)) (length (r_issues r)))
    end.
Proof.
  unfold analyzePage. destruct (pa11y u) as [r|]; [|reflexivity].
  rewrite groupIssuesByType_eq.
  destruct (existsb inheritedKey (r_issues r)); reflexivity.
Qed.

Lemma analyzePage_Ok u pg :
  analyzePage pa11y u = Ok pg ->
  exists r,
    pa11y u = Some r
    /\ existsb inheritedKey (r_issues r) = false
    /\ _groupIssuesByType (r_issues r) = Ok (p_issues pg)
    /\ pg = mkPageAnalysis u
               (match r_pageTitle r with Some t => t | None => "" end)
               (groupedEntries (r_issues r)) (length (r_issues r)).
Proof.
  rewrite analyzePage_eq. destruct (pa11y u) as [r|]; [|discriminate].
  destruct (existsb inheritedKey (r_issues r)) eqn:E; [discriminate|].
  intros [= <-]. exists r. repeat split; [assumption|].
  cbn [p_issues]. now rewrite groupIssuesByType_eq, E.
Qed.

Lemma In_okPages pg urls :
  In pg (okPages pa11y urls)
  <-> exists u, In u urls /\ analyzePage pa11y u = Ok pg.
Proof.
  unfold okPages. rewrite in_flat_map. split.
  - intros (u & Hu & Hin). exists u. split; [assumption|].
    destruct (analyzePage pa11y u) as [q|]; [|destruct Hin].
    destruct Hin as [->|[]]. reflexivity.
  - intros (u & Hu & Hok). exists u. split; [assumption|].
    rewrite Hok. now left.
Qed.

Lemma p_issues_okPages urls :
  map p_issues (okPages pa11y urls)
  = map (fun r => groupedEntries (r_issues r)) (scans pa11y urls).
Proof.
  induction urls as [|u urls IH]; [reflexivity|].
  unfold okPages, scans in *. cbn [flat_map]. rewrite analyzePage_eq.
  destruct (pa11y u) as [r|]; [|exact IH].
  destruct (existsb inheritedKey (r_issues r)); [exact IH|].
  cbn [app map]. cbn [p_issues]. now rewrite IH.
Qed.

Lemma totalIssues_keys urls :
  totalIssues (analyzeWebsite pa11y urls)
  = list_sum (map (fun r => distinctKeys (r_issues r))
                  (scans pa11y (uniq [] urls))).
Proof.
  rewrite analyzeWebsite_fields. simpl.
  rewrite length_concat, p_issues_okPages, map_map. f_equal.
  apply map_ext. intros r. apply length_groupedEntries.
Qed.
End Crawl.

End CrawlFacts.

(** ** reporter.js *)

Module ReporterFacts.
Import JsObject JsObjectFacts GroupFold GroupFoldFacts ExcelReporter RegexFacts.

Lemma mapStep_step o issue :
  mapStep o issue = step mapCls mapAdd o issue.
Proof.
  unfold mapStep, step, mapCls, resolve.
  destruct (optMatch (code issue) reStructured); [reflexivity|].
  destruct (optMatch (code issue) reAlt); reflexivity.
Qed.

Lemma fold_mapStep l o :
  fold_left mapStep l o = fold_left (step mapCls mapAdd) l o.
Proof.
  revert o. induction l as [|i l IH]; intros o; [reflexivity|].
  simpl. now rewrite mapStep_step, IH.
Qed.

Lemma hits_filed c l : hits mapCls c l = filed c l.
Proof.
  unfold hits, filed. apply filter_ext. intros i.
  unfold files, mapCls, criterionOf.
  now destruct (resolve (code i)) as [[p c']|].
Qed.

Lemma issues_absorb v l :
  issues (absorb mapAdd v l) = (issues v ++ map violationOf l)%list.
Proof.
  unfold absorb. revert v. induction l as [|a l IH]; intros v.
  - simpl. now rewrite app_nil_r.
  - simpl fold_left. rewrite IH. unfold mapAdd, pushIssue. simpl.
    now rewrite <- app_assoc.
Qed.

(** The entry of a criterion lists the issues filed under it, in order. *)
Lemma get_mapViolations c analysis :
  option_map issues (get c (_mapViolationsToWCAG analysis))
  = match filed c (allIssues analysis) with
    | [] => None
    | l => Some (map violationOf l)
    end.
Proof.
  unfold _mapViolationsToWCAG. rewrite fold_mapStep, get_fold.
  simpl get. rewrite hits_filed.
  destruct (filed c (allIssues analysis)) as [|a l] eqn:Hf; [reflexivity|].
  assert (Ha : In a (filed c (allIssues analysis))) by (rewrite Hf; now left).
  apply filter_In in Ha as [_ Ha]. unfold criterionOf in Ha.
  unfold fresh, mapCls.
  destruct (resolve (code a)) as [[p c']|]; [|discriminate].
  cbn [option_map snd]. now rewrite issues_absorb.
Qed.

Lemma fold_left_sum {A} (f : A -> nat) l n :
  fold_left (fun sum i => sum + f i) l n = n + list_sum (map f l).
Proof.
  revert n. induction l as [|a l IH]; intros n; simpl; [lia|].
  rewrite IH. lia.
Qed.

(** The three figures depend on the entry's issues up to their order. *)
Lemma stats_Permutation v v' :
  Permutation (issues v) (issues v') -> stats v = stats v'.
Proof.
  intros H. unfold stats, errorCount, warningCount, totalElements.
  rewrite !fold_left_sum.
  rewrite (Permutation_length (CrawlFacts.Permutation_filter _ _ _ H)).
  rewrite (Permutation_length
             (CrawlFacts.Permutation_filter
                (fun i => strictEq (v_type i) "warning") _ _ H)).
  now rewrite (Permutation_map v_affectedElements H).
Qed.

Lemma allIssues_Permutation pages pages' :
  Permutation pages pages' ->
  Permutation (allIssues (paged pages)) (allIssues (paged pages')).
Proof.
  intros H. unfold allIssues. simpl. rewrite <- !flat_map_concat_map.
  now apply Permutation_flat_map.
Qed.

(** On a code of the structured shape the issue is filed under the
    trailing triple. *)
Lemma resolve_structured pre p g1 g2 a b c post :
  lacks "P" pre = true -> isDigit p = true ->
  number g1 -> number g2 -> number a -> number b -> number c ->
  noDigitAhead post ->
  resolve (Some (pre ++ "Principle" ++ String p (".Guideline" ++ g1 ++ "_"
                   ++ g2 ++ "." ++ a ++ "_" ++ b ++ "_" ++ c ++ post)))
  = Some (String p "", a ++ "." ++ b ++ "." ++ c).
Proof.
  intros. unfold resolve, optMatch. now rewrite exec_structured.
Qed.

(** When only the alternative pattern matches, the criterion is the matched
    text itself, a part of the code. *)
Lemma resolve_fallback s gs :
  exec reStructured s = None -> exec reAlt s = Some gs ->
  exists g1 g2 g3 pre post,
    number g1 /\ number g2 /\ number g3
    /\ resolve (Some s) = Some (g1, g1 ++ "." ++ g2 ++ "." ++ g3)
    /\ s = pre ++ (g1 ++ "." ++ g2 ++ "." ++ g3) ++ post.
Proof.
  intros Hs Ha. destruct (exec_sound _ _ _ Ha) as (pre & post & Heq & Hn & Hl).
  destruct gs as [|g1 [|g2 [|g3 [|? ?]]]]; try discriminate.
  apply Forall_cons_iff in Hn as [Hn1 Hn].
  apply Forall_cons_iff in Hn as [Hn2 Hn].
  apply Forall_cons_iff in Hn as [Hn3 _].
  exists g1, g2, g3, pre, post. repeat split; try apply Hn1; try apply Hn2;
    try apply Hn3.
  - unfold resolve, optMatch. now rewrite Hs, Ha.
  - rewrite Heq at 1. f_equal. cbn [reAlt concat lit app render].
    now rewrite append_nil_r.
Qed.

(** A code that holds a digit triple and has no structured match is filed
    under a digit triple taken from it. *)
Lemma resolve_triple pre a b c post :
  number a -> number b -> number c ->
  exec reStructured (pre ++ a ++ "." ++ b ++ "." ++ c ++ post) = None ->
  exists g1 g2 g3 pre' post',
    number g1 /\ number g2 /\ number g3
    /\ resolve (Some (pre ++ a ++ "." ++ b ++ "." ++ c ++ post))
       = Some (g1, g1 ++ "." ++ g2 ++ "." ++ g3)
    /\ pre ++ a ++ "." ++ b ++ "." ++ c ++ post
       = pre' ++ (g1 ++ "." ++ g2 ++ "." ++ g3) ++ post'.
Proof.
  intros Ha Hb Hc Hs.
  destruct (exec_alt_found pre a b c post Ha Hb Hc) as (gs & Hgs).
  now apply (resolve_fallback _ gs).
Qed.

(** An issue without a code is left out, and the loop goes on. *)
Lemma mapStep_no_code o issue : code issue = None -> mapStep o issue = o.
Proof. intros H. unfold mapStep. now rewrite H. Qed.

(** An issue without a type counts as neither an error nor a warning. *)
Lemma pushIssue_no_type v issue :
  type issue = None ->
  errorCount (pushIssue (violationOf issue) v) = errorCount v
  /\ warningCount (pushIssue (violationOf issue) v) = warningCount v.
Proof.
  intros H. unfold errorCount, warningCount, pushIssue, violationOf. simpl.
  rewrite !filter_app. simpl. rewrite H. simpl. now rewrite !app_nil_r.
Qed.

End ReporterFacts.

(** * The claims *)

Import JsObject GroupFold AnalyzerFacts CrawlFacts ReporterFacts.

(** C1 (defect of the Markdown path).  On a code of the structured shape
    whose guideline numbers differ from the first two numbers of its success
    criterion, [Principle1.Guideline1_4.2_5_3], the spreadsheet path files
    the issue under the trailing triple ["2.5.3"], as claimed, while the
    Markdown path builds the criterion from the guideline numbers and the
    last number, ["1.4.3"]. *)
Theorem markdown_criterion_takes_guideline_numbers :
  exec reStructured "WCAG2AA.Principle1.Guideline1_4.2_5_3.G18.Fail"
  = Some ["1"; "1"; "4"; "2"; "5"; "3"]
  /\ exec reGuideline "WCAG2AA.Principle1.Guideline1_4.2_5_3.G18.Fail"
     = Some ["1"; "4"; "2"; "5"; "3"]
  /\ keys (ExcelReporter._mapViolationsToWCAG (paged [page [mismatched]]))
     = ["2.5.3"]
  /\ WCAGMCPServer._mapViolationsToWCAG (paged [page [mismatched]])
     = Ok [("1.4.3", [WCAGMCPServer.entryOf mismatched])].
Proof. repeat split; vm_compute; reflexivity. Qed.

(** C2 (defect of the Markdown path).  The code ["2.4.2"] of a warning does
    not match the structured pattern and is a bare triple: the spreadsheet
    path files it under ["2.4.2"], whose [warningCount] is 1, as claimed;
    the Markdown path has no alternative pattern and files nothing. *)
Theorem markdown_lacks_fallback :
  exec reStructured "2.4.2" = None
  /\ exec reAlt "2.4.2" = Some ["2"; "4"; "2"]
  /\ option_map ExcelReporter.warningCount
       (get "2.4.2" (ExcelReporter._mapViolationsToWCAG (flat [titleMissing])))
     = Some 1
  /\ keys (ExcelReporter._mapViolationsToWCAG (paged [page [titleMissing]]))
     = ["2.4.2"]
  /\ WCAGMCPServer._mapViolationsToWCAG (paged [page [titleMissing]]) = Ok [].
Proof. repeat split; vm_compute; reflexivity. Qed.

(** C3 (defect of the Markdown path).  With an issue that has no [code]
    ahead of a well-formed one, the spreadsheet path leaves the first out
    and files the second, and it counts an issue that has no [type] as
    neither an error nor a warning, as claimed; the Markdown path throws on
    the missing code, although it files the well-formed issue when it comes
    alone. *)
Theorem markdown_throws_without_code :
  ExcelReporter._mapViolationsToWCAG (paged [page [noCode; lowContrast]])
  = ExcelReporter._mapViolationsToWCAG (paged [page [lowContrast]])
  /\ option_map stats
       (get "2.4.2" (ExcelReporter._mapViolationsToWCAG
                       (paged [page [noType; lowContrast]])))
     = Some (0, 0, 1)
  /\ keys (ExcelReporter._mapViolationsToWCAG
             (paged [page [noCode; lowContrast]])) = ["1.4.3"]
  /\ WCAGMCPServer._mapViolationsToWCAG (paged [page [noCode; lowContrast]])
     = Throw
  /\ WCAGMCPServer._mapViolationsToWCAG (paged [page [lowContrast]])
     = Ok [("1.4.3", [WCAGMCPServer.entryOf lowContrast])].
Proof. repeat split; vm_compute; reflexivity. Qed.

(** C4.  The status written for a criterion: "Ikke oppfylt" (not compliant)
    as soon as there is an error, whatever the warnings; otherwise
    "Advarsel" (warning) when there is a warning; otherwise "Oppfylt"
    (compliant). *)
Theorem status_precedence (violations : ExcelReporter.Criterion) :
  (0 < ExcelReporter.errorCount violations ->
   ExcelReporter.statusValue violations = "Ikke oppfylt")
  /\ (ExcelReporter.errorCount violations = 0 ->
      0 < ExcelReporter.warningCount violations ->
      ExcelReporter.statusValue violations = "Advarsel")
  /\ (ExcelReporter.errorCount violations = 0 ->
      ExcelReporter.warningCount violations = 0 ->
      ExcelReporter.statusValue violations = "Oppfylt").
Proof.
  unfold ExcelReporter.statusValue. repeat split.
  - intros H. apply Nat.ltb_lt in H. now rewrite H.
  - intros -> H. apply Nat.ltb_lt in H. now rewrite H.
  - now intros -> ->.
Qed.

(** One error and five warnings: not compliant. *)
Lemma status_precedence_witness :
  ExcelReporter.errorCount oneErrorFiveWarnings = 1
  /\ ExcelReporter.warningCount oneErrorFiveWarnings = 5
  /\ ExcelReporter.statusValue oneErrorFiveWarnings = "Ikke oppfylt".
Proof.
  split; [reflexivity|]. split; [reflexivity|].
  apply (proj1 (status_precedence oneErrorFiveWarnings)).
  vm_compute. lia.
Defined.

(** The grouping by key: when [_groupIssuesByType] returns, exactly one
    returned entry answers to the key of a raw issue [i]; its [elements]
    are those of the raw issues with that key, which include every raw
    issue with the code and the type of [i], and its [affectedElements] is
    their number. *)
Lemma groupIssuesByType_merges_by_key (issues out : list Issue) (i : Issue) :
  _groupIssuesByType issues = Ok out ->
  In i issues ->
  let merged := sameKey (groupKey i) issues in
  incl (samePair i issues) merged
  /\ (exists e,
        filter (fun e' => String.eqb (groupKey e') (groupKey i)) out = [e]
        /\ elements e = map elementOf merged
        /\ affectedElements e = Some (length merged)).
Proof.
  intros Hout Hin merged.
  apply groupIssuesByType_Ok in Hout as [_ ->]. split.
  - intros j Hj. apply filter_In in Hj as [Hj Hp].
    apply filter_In. split; [assumption|].
    destruct (pair_dec (pairOf j) (pairOf i)) as [E|]; [|discriminate].
    apply String.eqb_eq. now apply pairOf_groupKey.
  - destruct (groupIssuesByType_unique i issues Hin) as (a & rest & Hs & Hf).
    exists (summary a (a :: rest)). split; [assumption|].
    subst merged. rewrite Hs. split; reflexivity.
Qed.


(** C6, as the specification states it, fails twice.  A type written in
    capitals is not the type ['error'], yet it is counted as critical, not
    as moderate.  And the pass does not run over the issues the scanner
    reports: a page on which the scanner reports two errors of one code
    adds 1 to [critical], not 2, because the page contributes its grouped
    entries. *)
Lemma impact_tally_counterexample :
  (type shouting = Some "ERROR"
   /\ _groupIssuesByImpact [shouting] = mkImpact 1 0 0 0
   /\ specImpact [shouting] = mkImpact 0 0 1 0
   /\ _groupIssuesByImpact [shouting] <> specImpact [shouting])
  /\ (twiceScan "https://example.org/" = Some (mkResults None sameTwice)
      /\ specImpact sameTwice = mkImpact 2 0 0 0
      /\ issuesByImpact (analyzeWebsite twiceScan ["https://example.org/"])
         = mkImpact 1 0 0 0).
Proof. repeat split. vm_compute. discriminate. Qed.

(** C6 (amended).  The tally is one pass over the flattened sequence of
    the entries of all analysed pages, in crawl order, an entry being what
    the grouping of a page returned for one key (not a raw occurrence, and
    not a deduplicated per-criterion bucket): an entry whose type, in lower
    case, is
    ['error'] adds 1 to [critical]; one whose type, in lower case, is
    ['warning'] adds 1 to [serious]; every other entry, one without a type
    included, adds 1 to [moderate]; [minor] stays 0. *)
Theorem impact_tally (issues : list Issue) :
  _groupIssuesByImpact issues
  = mkImpact (count isCritical issues) (count isSerious issues)
             (count isModerate issues) 0
  /\ (forall i, isCritical i = true
                <-> option_map toLowerCase (type i) = Some "error")
  /\ (forall i, isSerious i = true
                <-> option_map toLowerCase (type i) = Some "warning")
  /\ (forall i, isModerate i = negb (isCritical i) && negb (isSerious i))
  /\ count isCritical issues + count isSerious issues
     + count isModerate issues = length issues
  /\ (forall pa11y urls,
        let w := analyzeWebsite pa11y urls in
        issuesByImpact w
        = _groupIssuesByImpact (concat (map p_issues (pageAnalyses w)))
        /\ Forall (fun pg =>
                     exists results,
                       pa11y (p_url pg) = Some results
                       /\ _groupIssuesByType (r_issues results)
                          = Ok (p_issues pg))
                  (pageAnalyses w)).
Proof.
  assert (Hty : forall i lit, lit <> "" -> lit <> "notice" ->
            String.eqb (impactType i) lit = true
            <-> option_map toLowerCase (type i) = Some lit).
  { intros i lit Hne Hno. unfold impactType.
    destruct (type i) as [t|]; cbn [option_map].
    - destruct (String.eqb (toLowerCase t) "") eqn:E.
      + apply String.eqb_eq in E. rewrite E. split.
        * intros H. apply String.eqb_eq in H. congruence.
        * intros [= H]. congruence.
      + rewrite String.eqb_eq. split; congruence.
    - split; [|discriminate]. intros H. apply String.eqb_eq in H. congruence. }
  split; [apply groupIssuesByImpact_counts|]. split; [|split; [|split; [|split]]].
  - intros i. apply Hty; discriminate.
  - intros i. unfold isSerious. rewrite andb_true_iff, negb_true_iff.
    rewrite (Hty i "warning") by discriminate. unfold isCritical. split.
    + tauto.
    + intros H. split; [|assumption]. apply String.eqb_neq. intros Heq.
      assert (String.eqb (impactType i) "warning" = true) as Hw
          by (apply Hty; [discriminate|discriminate|assumption]).
      apply String.eqb_eq in Hw. congruence.
  - intros i. unfold isModerate, isSerious.
    destruct (isCritical i), (String.eqb (impactType i) "warning"); reflexivity.
  - unfold count. induction issues as [|i issues IH]; [reflexivity|].
    simpl. unfold isSerious at 1, isModerate at 1.
    destruct (isCritical i), (String.eqb (impactType i) "warning"); simpl; lia.
  - intros pa11y urls w. subst w. rewrite analyzeWebsite_fields.
    cbn [issuesByImpact pageAnalyses]. split; [reflexivity|].
    apply Forall_forall. intros pg Hpg.
    apply In_okPages in Hpg as (u & _ & Hok).
    apply analyzePage_Ok in Hok as (r & Hr & _ & Hg & ->).
    exists r. now split.
Qed.

(** C7.  Analyses whose pages are the same up to their order give every
    criterion the same error count, warning count and total of affected
    elements (a criterion has an entry in the one exactly when it has an
    entry in the other), and give the same tally by impact. *)
Theorem aggregation_page_order (pages pages' : list PageAnalysis) :
  Permutation pages pages' ->
  (forall c,
     option_map stats (get c (ExcelReporter._mapViolationsToWCAG (paged pages)))
     = option_map stats
         (get c (ExcelReporter._mapViolationsToWCAG (paged pages'))))
  /\ _groupIssuesByImpact (concat (map p_issues pages))
     = _groupIssuesByImpact (concat (map p_issues pages')).
Proof.
  intros Hperm. split.
  - intros c.
    pose proof (get_mapViolations c (paged pages)) as H.
    pose proof (get_mapViolations c (paged pages')) as H'.
    assert (Hf : Permutation (filed c (ExcelReporter.allIssues (paged pages)))
                   (filed c (ExcelReporter.allIssues (paged pages'))))
      by (apply Permutation_filter, allIssues_Permutation, Hperm).
    destruct (filed c (ExcelReporter.allIssues (paged pages))) as [|a l] eqn:E;
      destruct (filed c (ExcelReporter.allIssues (paged pages'))) as [|a' l']
        eqn:E'.
    + destruct (get c _) as [v|]; [discriminate|].
      destruct (get c _) as [v'|]; [discriminate|]. reflexivity.
    + apply Permutation_nil in Hf. discriminate.
    + apply Permutation_sym, Permutation_nil in Hf. discriminate.
    + destruct (get c (ExcelReporter._mapViolationsToWCAG (paged pages)))
        as [v|]; [|discriminate].
      destruct (get c (ExcelReporter._mapViolationsToWCAG (paged pages')))
        as [v'|]; [|discriminate].
      simpl in H, H'. injection H as H. injection H' as H'. simpl. f_equal.
      apply stats_Permutation. rewrite H, H'.
      apply (Permutation_map ExcelReporter.violationOf Hf).
  - apply groupIssuesByImpact_Permutation.
    rewrite <- !flat_map_concat_map. now apply Permutation_flat_map.
Qed.

(** Two pages, merged in either order. *)
Lemma aggregation_page_order_witness :
  (forall c,
     option_map stats
       (get c (ExcelReporter._mapViolationsToWCAG (paged [pageA; pageB])))
     = option_map stats
         (get c (ExcelReporter._mapViolationsToWCAG (paged [pageB; pageA]))))
  /\ _groupIssuesByImpact (concat (map p_issues [pageA; pageB]))
     = _groupIssuesByImpact (concat (map p_issues [pageB; pageA])).
Proof.
  apply (aggregation_page_order [pageA; pageB] [pageB; pageA]).
  apply perm_swap.
Defined.

(** The lists themselves follow the order of the pages. *)
Example page_order_shows_in_lists :
  option_map ExcelReporter.issues
    (get "1.4.3" (ExcelReporter._mapViolationsToWCAG (paged [pageA; pageB])))
  <> option_map ExcelReporter.issues
       (get "1.4.3" (ExcelReporter._mapViolationsToWCAG (paged [pageB; pageA]))).
Proof. vm_compute. discriminate. Qed.

(** C8.  Without issues no criterion gets an entry, in either renderer, and
    the tally by impact is zero throughout. *)
Theorem empty_input_empty_aggregate :
  ExcelReporter._mapViolationsToWCAG (flat []) = []
  /\ ExcelReporter._mapViolationsToWCAG (paged []) = []
  /\ ExcelReporter._mapViolationsToWCAG (paged [page []]) = []
  /\ WCAGMCPServer._mapViolationsToWCAG (paged []) = Ok []
  /\ _groupIssuesByType [] = Ok []
  /\ _groupIssuesByImpact [] = mkImpact 0 0 0 0
  /\ (forall pa11y,
        issuesByImpact (analyzeWebsite pa11y []) = mkImpact 0 0 0 0
        /\ totalIssues (analyzeWebsite pa11y []) = 0).
Proof. repeat split. Qed.


(** [totalIssues] is the number of entries over the analysed pages, that
    is, for every page whose analysis succeeded, the number of distinct
    keys [code_type] among its raw issues.  Where every raw issue has a
    code and a type without underscore, this is the number of distinct
    pairs of a code and a type. *)
Lemma totalIssues_counts_keys (pa11y : string -> option Results)
  (urls : list string) :
  let w := analyzeWebsite pa11y urls in
  let scanned := scans pa11y (uniq [] urls) in
  totalIssues w = list_sum (map (fun p => length (p_issues p)) (pageAnalyses w))
  /\ map p_issues (pageAnalyses w)
     = map (fun r => groupedEntries (r_issues r)) scanned
  /\ totalIssues w = list_sum (map (fun r => distinctKeys (r_issues r)) scanned)
  /\ ((forall r, In r scanned -> forallb plainType (r_issues r) = true) ->
      totalIssues w
      = list_sum (map (fun r => distinctPairs (r_issues r)) scanned)).
Proof.
  intros w scanned. subst w scanned. repeat split.
  - rewrite analyzeWebsite_fields. simpl. rewrite length_concat.
    now rewrite map_map.
  - rewrite analyzeWebsite_fields. simpl. apply p_issues_okPages.
  - apply totalIssues_keys.
  - intros H. rewrite totalIssues_keys. f_equal. apply map_ext_in.
    intros r Hr. apply distinctKeys_pairs. now apply H.
Qed.

(** A page with Scenario 4: two raw issues, one pair, one entry. *)
Example totalIssues_scenario4 :
  totalIssues (analyzeWebsite twiceScan ["https://example.org/"])
  = list_sum (map (fun r => distinctPairs (r_issues r))
                  (scans twiceScan (uniq [] ["https://example.org/"]))).
Proof.
  apply (proj2 (proj2 (proj2
           (totalIssues_counts_keys twiceScan ["https://example.org/"])))).
  intros r [<-|[]]. reflexivity.
Defined.

(** C10.  Every entry the grouping of a page returns is that of the first
    raw issue with its key: its message is the message of that issue
    followed by [" (Affects N elements)"], or by [" (Affects 1 element)"]
    when N is 1, where N is the number of raw issues with that key, the
    ones merged; it is never the raw message, and both renderers copy it
    as it is. *)
Theorem grouped_message_suffix (issues out : list Issue) (e : Issue) :
  _groupIssuesByType issues = Ok out ->
  In e out ->
  exists first n,
    groupKey first = groupKey e
    /\ code first = code e /\ type first = type e
    /\ hd_error (sameKey (groupKey e) issues) = Some first
    /\ n = length (sameKey (groupKey e) issues)
    /\ 1 <= n
    /\ affectedElements e = Some n
    /\ message e = Some (tpl (message first) ++ affectsSuffix n)
    /\ affectsSuffix n
       = (if n =? 1 then " (Affects 1 element)"
          else " (Affects " ++ showNat n ++ " elements)")
    /\ message e <> message first
    /\ ExcelReporter.v_message (ExcelReporter.violationOf e) = message e
    /\ WCAGMCPServer.e_message (WCAGMCPServer.entryOf e) = message e.
Proof.
  intros Hout H. apply groupIssuesByType_Ok in Hout as [_ ->].
  apply In_groupedEntries in H as (a & rest & Hs & ->).
  exists a, (length (a :: rest)).
  change (groupKey (summary a (a :: rest))) with (groupKey a).
  rewrite Hs. repeat split.
  - simpl. lia.
  - destruct rest as [|b rest]; [reflexivity|].
    apply affectsSuffix_many. simpl. lia.
  - simpl. destruct (message a) as [m|]; [|discriminate].
    intros [= Heq]. revert Heq. apply RegexFacts.append_suffix_neq.
    discriminate.
Qed.

(** Scenario 4: the entry reads ["No alt (Affects 2 elements)"]. *)
Lemma grouped_message_suffix_witness :
  _groupIssuesByType sameTwice
  = Ok [summary (hd lowContrast sameTwice) sameTwice]
  /\ message (summary (hd lowContrast sameTwice) sameTwice)
     = Some "No alt (Affects 2 elements)"
  /\ exists first n,
       groupKey first = groupKey (summary (hd lowContrast sameTwice) sameTwice)
       /\ code first = code (summary (hd lowContrast sameTwice) sameTwice)
       /\ type first = type (summary (hd lowContrast sameTwice) sameTwice)
       /\ hd_error (sameKey (groupKey (summary (hd lowContrast sameTwice)
                                               sameTwice)) sameTwice)
          = Some first
       /\ n = length (sameKey (groupKey (summary (hd lowContrast sameTwice)
                                                 sameTwice)) sameTwice)
       /\ 1 <= n
       /\ affectedElements (summary (hd lowContrast sameTwice) sameTwice)
          = Some n
       /\ message (summary (hd lowContrast sameTwice) sameTwice)
          = Some (tpl (message first) ++ affectsSuffix n)
       /\ affectsSuffix n
          = (if n =? 1 then " (Affects 1 element)"
             else " (Affects " ++ showNat n ++ " elements)")
       /\ message (summary (hd lowContrast sameTwice) sameTwice)
          <> message first
       /\ ExcelReporter.v_message
            (ExcelReporter.violationOf
               (summary (hd lowContrast sameTwice) sameTwice))
          = message (summary (hd lowContrast sameTwice) sameTwice)
       /\ WCAGMCPServer.e_message
            (WCAGMCPServer.entryOf
               (summary (hd lowContrast sameTwice) sameTwice))
          = message (summary (hd lowContrast sameTwice) sameTwice).
Proof.
  split; [reflexivity|]. split; [reflexivity|].
  apply (grouped_message_suffix sameTwice
           [summary (hd lowContrast sameTwice) sameTwice]).
  - reflexivity.
  - left. reflexivity.
Defined.


Example scenario4_message :
  exists out,
    _groupIssuesByType sameTwice = Ok out
    /\ map message out = [Some "No alt (Affects 2 elements)"].
Proof. eexists. split; reflexivity. Qed.

(** * Further properties of the code *)

(** ** Grouping loops: order and conservation *)

Module GroupFoldOrder.
Import JsObject JsObjectFacts GroupFold GroupFoldFacts.

Lemma has_In x l : existsb (String.eqb x) l = true <-> In x l.
Proof.
  rewrite existsb_exists. split.
  - intros (y & Hy & E). apply String.eqb_eq in E. now subst.
  - intros H. exists x. split; [assumption|apply String.eqb_refl].
Qed.

Lemma has_ext x l l' :
  (forall y, In y l <-> In y l') ->
  existsb (String.eqb x) l = existsb (String.eqb x) l'.
Proof.
  intros H. apply eq_true_iff_eq. rewrite !has_In. apply H.
Qed.

(** [uniq] looks at [seen] as a set. *)
Lemma uniq_ext seen seen' l :
  (forall y, In y seen <-> In y seen') -> uniq seen l = uniq seen' l.
Proof.
  revert seen seen'. induction l as [|u l IH]; intros seen seen' H; simpl.
  - reflexivity.
  - rewrite (has_ext u seen seen' H).
    destruct (existsb (String.eqb u) seen'); [now apply IH|].
    f_equal. apply IH. intros y. simpl. rewrite H. tauto.
Qed.

Lemma In_uniq x seen l : In x (uniq seen l) <-> In x l /\ ~ In x seen.
Proof.
  revert seen. induction l as [|u l IH]; intros seen; simpl.
  - tauto.
  - destruct (existsb (String.eqb u) seen) eqn:E.
    + apply has_In in E. rewrite IH. split.
      * tauto.
      * intros [[->|H] Hn]; [contradiction|tauto].
    + assert (Hu : ~ In u seen).
      { intros H. apply has_In in H. congruence. }
      simpl. rewrite IH. simpl. split.
      * intros [->|(H & Hn)]; [tauto|]. split; [tauto|]. tauto.
      * intros [[->|H] Hn]; [now left|].
        destruct (string_dec u x) as [->|Hne]; [now left|]. right.
        split; [assumption|]. intros [H'|H']; [congruence|contradiction].
Qed.

Lemma NoDup_uniq seen l : NoDup (uniq seen l).
Proof.
  revert seen. induction l as [|u l IH]; intros seen; simpl.
  - constructor.
  - destruct (existsb (String.eqb u) seen); [apply IH|].
    constructor; [|apply IH]. rewrite In_uniq. simpl. tauto.
Qed.

(** A list without repetition, and with nothing seen before, is kept. *)
Lemma uniq_NoDup seen l :
  NoDup l -> (forall x, In x l -> ~ In x seen) -> uniq seen l = l.
Proof.
  revert seen. induction l as [|u l IH]; intros seen Hnd Hs; simpl.
  - reflexivity.
  - inversion Hnd as [|? ? Hu Hnd']; subst.
    destruct (existsb (String.eqb u) seen) eqn:E.
    + apply has_In in E. exfalso. apply (Hs u); [now left|assumption].
    + f_equal. apply IH; [assumption|].
      intros x Hx [<-|H]; [contradiction|]. apply (Hs x); [now right|assumption].
Qed.

Lemma length_uniq seen l : length (uniq seen l) <= length l.
Proof.
  revert seen. induction l as [|u l IH]; intros seen; simpl; [lia|].
  destruct (existsb (String.eqb u) seen); simpl.
  - specialize (IH seen). lia.
  - specialize (IH (u :: seen)). lia.
Qed.

Lemma hd_uniq d l : hd d (uniq [] l) = hd d l.
Proof. destruct l; reflexivity. Qed.

Lemma uniq_snoc seen l u :
  In u l \/ In u seen -> uniq seen (l ++ [u]) = uniq seen l.
Proof.
  revert seen. induction l as [|x l IH]; intros seen H; simpl.
  - destruct H as [[]|H]. apply has_In in H. now rewrite H.
  - destruct (existsb (String.eqb x) seen) eqn:E.
    + apply IH. destruct H as [[->|H]|H]; [|tauto|tauto].
      right. now apply has_In.
    + f_equal. apply IH. simpl. destruct H as [[->|H]|H]; tauto.
Qed.

Section Order.
Context {A V : Type}.
Variable cls : A -> option (string * V).
Variable add : A -> V -> V.

(** The keys of the result: those there before, then the new ones in the
    order in which they are first filed. *)
Lemma keys_fold_order l o :
  keys (fold_left (step cls add) l o)
  = (keys o ++ uniq (keys o) (filedKeys cls l))%list.
Proof.
  revert o. induction l as [|a l IH]; intros o.
  - simpl. now rewrite app_nil_r.
  - simpl fold_left. rewrite IH, step_eq. unfold filedKeys. simpl flat_map.
    destruct (cls a) as [[k init]|]; [|reflexivity].
    rewrite keys_upsert. simpl.
    destruct (get k o) eqn:E.
    + assert (In k (keys o)) as Hk.
      { destruct (in_dec string_dec k (keys o)) as [H|H]; [assumption|].
        apply get_None_keys in H. congruence. }
      apply has_In in Hk. now rewrite Hk.
    + apply get_None_keys in E.
      assert (existsb (String.eqb k) (keys o) = false) as Hk.
      { destruct (existsb (String.eqb k) (keys o)) eqn:E'; [|reflexivity].
        apply has_In in E'. contradiction. }
      rewrite Hk, <- app_assoc. simpl. do 2 f_equal.
      apply uniq_ext. intros y. rewrite in_app_iff. simpl. tauto.
Qed.

(** A measure that every filing raises by one adds up to the number of
    items filed. *)
Variable mu : V -> nat.
Hypothesis mu_add : forall a v, mu (add a v) = S (mu v).
Hypothesis mu_init : forall a k init, cls a = Some (k, init) -> mu init = 0.

Lemma total_update k f o v :
  get k o = Some v -> total mu (update k f o) + mu v = total mu o + mu (f v).
Proof.
  unfold total, values. induction o as [|[k' v'] o IH]; simpl; [discriminate|].
  destruct (String.eqb k k') eqn:E.
  - intros [= ->]. simpl. lia.
  - intros H. simpl. specialize (IH H). lia.
Qed.

Lemma total_set_new k v o :
  get k o = None -> total mu (set k v o) = total mu o + mu v.
Proof.
  unfold total, values. induction o as [|[k' v'] o IH]; simpl; [lia|].
  destruct (String.eqb k k') eqn:E; [discriminate|].
  intros H. simpl. rewrite (IH H). lia.
Qed.

Lemma total_fold l o :
  total mu (fold_left (step cls add) l o)
  = total mu o + length (filedKeys cls l).
Proof.
  revert o. induction l as [|a l IH]; intros o.
  - simpl. lia.
  - simpl fold_left. rewrite IH, step_eq. unfold filedKeys. simpl flat_map.
    destruct (cls a) as [[k init]|] eqn:Ha; [|reflexivity].
    rewrite length_app. simpl. unfold upsert.
    destruct (get k o) as [v|] eqn:E.
    + pose proof (total_update k (add a) o v E) as H.
      rewrite mu_add in H. lia.
    + pose proof (total_update k (add a) (set k init o) init
                    (get_set_same k init o)) as H.
      rewrite mu_add, (total_set_new k init o E), (mu_init a k init Ha) in H.
      lia.
Qed.
End Order.

End GroupFoldOrder.

(** ** analyzer.js *)

Module AnalyzerOrder.
Import JsObject JsObjectFacts GroupFold GroupFoldFacts GroupFoldOrder.

Lemma filedKeys_groupCls issues :
  filedKeys groupCls issues = map groupKey issues.
Proof.
  induction issues as [|i issues IH]; [reflexivity|].
  change (filedKeys groupCls (i :: issues))
    with (groupKey i :: filedKeys groupCls issues).
  now rewrite IH.
Qed.

Lemma groupKey_withCount g : groupKey (withCount g) = groupKey g.
Proof. reflexivity. Qed.

Lemma groupKey_grouped issues :
  map groupKey (groupedEntries issues) = keys (grouped issues).
Proof.
  unfold groupedEntries, values, keys. fold (grouped issues).
  rewrite !map_map. apply map_ext_in. intros [k g] H. simpl.
  apply In_grouped in H as (a & rest & _ & <- & ->).
  now rewrite absorb_elements.
Qed.

Lemma affectedOf_grouped issues :
  map affectedOf (groupedEntries issues)
  = map (fun g => length (elements g)) (values (grouped issues)).
Proof.
  unfold groupedEntries. fold (grouped issues). now rewrite map_map.
Qed.

Lemma sum_affectedOf issues :
  list_sum (map affectedOf (groupedEntries issues)) = length issues.
Proof.
  rewrite affectedOf_grouped. unfold grouped. rewrite fold_fileIssue.
  change (list_sum (map (fun g => length (elements g)) (values ?o)))
    with (total (fun g => length (elements g)) o).
  rewrite (total_fold groupCls groupAdd (fun g => length (elements g))).
  - rewrite filedKeys_groupCls, length_map. reflexivity.
  - intros a v. unfold groupAdd, pushElement. simpl.
    rewrite length_app. simpl. lia.
  - intros a k init [= _ <-]. reflexivity.
Qed.

Lemma length_uniq_groupKey issues :
  length (groupedEntries issues) <= length issues.
Proof.
  rewrite <- (length_map groupKey), groupKey_grouped.
  unfold grouped. rewrite fold_fileIssue, keys_fold_order. simpl.
  rewrite filedKeys_groupCls.
  etransitivity; [apply length_uniq|]. now rewrite length_map.
Qed.

End AnalyzerOrder.

Module WebsiteFacts.
Import AnalyzerFacts CrawlFacts GroupFoldOrder AnalyzerOrder.

Section Website.
Variable pa11y : string -> option Results.


Lemma length_okPages_failed urls :
  length (okPages pa11y urls) + length (failedUrls pa11y urls) = length urls.
Proof.
  unfold okPages, failedUrls. induction urls as [|u urls IH]; [reflexivity|].
  simpl. destruct (analyzePage pa11y u); simpl; lia.
Qed.

Lemma p_url_okPages urls :
  map p_url (okPages pa11y urls) = filter (analysed pa11y) urls.
Proof.
  unfold okPages, analysed. induction urls as [|u urls IH]; [reflexivity|].
  cbn [flat_map filter]. destruct (analyzePage pa11y u) as [pg|] eqn:E;
    [|exact IH].
  apply analyzePage_Ok in E as (r & _ & _ & _ & ->).
  cbn [app map p_url]. now rewrite IH.
Qed.

Lemma failedUrls_filter urls :
  failedUrls pa11y urls = filter (fun u => negb (analysed pa11y u)) urls.
Proof.
  unfold failedUrls, analysed. apply filter_ext. intros u.
  now destruct (analyzePage pa11y u).
Qed.

Lemma p_totalIssues_okPages urls :
  map p_totalIssues (okPages pa11y urls)
  = map (fun r => length (r_issues r)) (scans pa11y urls).
Proof.
  unfold okPages, scans. induction urls as [|u urls IH]; [reflexivity|].
  cbn [flat_map]. rewrite analyzePage_eq.
  destruct (pa11y u) as [r|]; [|exact IH].
  destruct (existsb inheritedKey (r_issues r)); [exact IH|].
  cbn [app map p_totalIssues]. now rewrite IH.
Qed.
End Website.

End WebsiteFacts.

Import GroupFoldOrder AnalyzerOrder WebsiteFacts.

(** X1.  Grouping throws exactly when the key of some raw issue names a
    member of [Object.prototype]; when it returns, it loses no occurrence
    and counts none twice: the [affectedElements] of the returned entries
    add up to the number of raw issues; every entry counts at least one
    element, as many as its [elements] list holds; and there are never
    more entries than raw issues. *)
Theorem grouping_conserves_occurrences (issues : list Issue) :
  (_groupIssuesByType issues = Throw
   <-> exists i, In i issues /\ In (groupKey i) inherited)
  /\ (forall out,
        _groupIssuesByType issues = Ok out ->
        list_sum (map affectedOf out) = length issues
        /\ length out <= length issues
        /\ Forall (fun e => affectedElements e = Some (length (elements e))
                            /\ 1 <= length (elements e)) out).
Proof.
  split; [apply groupIssuesByType_Throw|]. intros out Hout.
  apply groupIssuesByType_Ok in Hout as [_ ->].
  split; [apply sum_affectedOf|]. split; [apply length_uniq_groupKey|].
  apply Forall_forall. intros e He.
  apply In_groupedEntries in He as (a & rest & _ & ->).
  unfold summary. simpl. rewrite length_map. split; [reflexivity|lia].
Qed.

(** Scenario 4: one entry for two occurrences. *)
Lemma grouping_conserves_occurrences_witness :
  _groupIssuesByType sameTwice
  = Ok [summary (hd lowContrast sameTwice) sameTwice]
  /\ list_sum (map affectedOf [summary (hd lowContrast sameTwice) sameTwice])
     = 2
  /\ length [summary (hd lowContrast sameTwice) sameTwice] <= 2.
Proof.
  split; [reflexivity|].
  destruct (proj2 (grouping_conserves_occurrences sameTwice)
              [summary (hd lowContrast sameTwice) sameTwice] eq_refl)
    as (H1 & H2 & _).
  split; [exact H1|exact H2].
Defined.

(** X2.  When grouping returns, the entries stand in first-seen order, one
    per key: their keys are the keys of the raw issues, each at its first
    occurrence, none of them inherited; and an entry carries the code,
    type, selector and context of the first raw issue with its key. *)
Theorem grouping_first_seen_order (issues out : list Issue) :
  _groupIssuesByType issues = Ok out ->
  map groupKey out = uniq [] (map groupKey issues)
  /\ NoDup (map groupKey out)
  /\ Forall (fun k => ~ In k inherited) (map groupKey out)
  /\ Forall (fun e =>
               exists first,
                 hd_error (sameKey (groupKey e) issues) = Some first
                 /\ code e = code first /\ type e = type first
                 /\ selector e = selector first /\ context e = context first)
            out.
Proof.
  intros Hout. apply groupIssuesByType_Ok in Hout as [Hno ->].
  assert (H : map groupKey (groupedEntries issues)
              = uniq [] (map groupKey issues)).
  { rewrite groupKey_grouped. unfold grouped.
    rewrite fold_fileIssue, keys_fold_order. simpl.
    now rewrite filedKeys_groupCls. }
  split; [assumption|]. split; [rewrite H; apply NoDup_uniq|]. split.
  - apply Forall_forall. intros k Hk Hin.
    apply in_map_iff in Hk as (e & <- & He).
    apply In_groupedEntries in He as (a & rest & Hs & ->).
    change (groupKey (summary a (a :: rest))) with (groupKey a) in *.
    assert (Ha : In a issues).
    { assert (Hin' : In a (sameKey (groupKey a) issues))
        by (rewrite Hs; now left).
      now apply filter_In in Hin' as [Hin' _]. }
    assert (existsb inheritedKey issues = true); [|congruence].
    apply existsb_exists. exists a. split; [exact Ha|].
    now apply inheritedKey_In.
  - apply Forall_forall. intros e He.
    apply In_groupedEntries in He as (a & rest & Hs & ->).
    exists a. change (groupKey (summary a (a :: rest))) with (groupKey a).
    rewrite Hs. repeat split.
Qed.

(** Two occurrences of one code, then another code: two entries, in that
    order. *)
Lemma grouping_first_seen_order_witness :
  map groupKey (summary lowContrast [lowContrast; lowContrast]
                :: [summary titleMissing [titleMissing]])
  = [groupKey lowContrast; groupKey titleMissing].
Proof.
  apply (proj1 (grouping_first_seen_order
                  [lowContrast; titleMissing; lowContrast]
                  (summary lowContrast [lowContrast; lowContrast]
                   :: [summary titleMissing [titleMissing]])
                  eq_refl)).
Defined.



(** X4.  A crawl accounts for every distinct URL once: a URL whose
    analysis returns is among the analysed pages, one whose analysis throws
    is listed as failed, in the order of submission; a failed page does not
    stop the crawl; and [baseUrl] is the first URL submitted. *)
Theorem analyzeWebsite_accounts_for_urls (pa11y : string -> option Results)
  (urls : list string) :
  let w := analyzeWebsite pa11y urls in
  pagesAnalyzed w = length (pageAnalyses w)
  /\ pagesAnalyzed w + length (failedPages w) = length (uniq [] urls)
  /\ pagesAnalyzed w + length (failedPages w) <= length urls
  /\ map p_url (pageAnalyses w) = filter (analysed pa11y) (uniq [] urls)
  /\ failedPages w = filter (fun u => negb (analysed pa11y u)) (uniq [] urls)
  /\ baseUrl w = hd "" urls.
Proof.
  intros w. subst w. rewrite analyzeWebsite_fields. simpl.
  split; [reflexivity|]. split; [apply length_okPages_failed|].
  split; [rewrite length_okPages_failed; apply length_uniq|].
  split; [apply p_url_okPages|]. split; [apply failedUrls_filter|].
  apply hd_uniq.
Qed.

(** X5.  Duplicate URLs never change the analysis: a crawl of a list is the
    crawl of its distinct URLs, and submitting a URL again changes
    nothing. *)
Theorem analyzeWebsite_ignores_duplicates (pa11y : string -> option Results)
  (urls : list string) (u : string) :
  In u urls ->
  analyzeWebsite pa11y (urls ++ [u]) = analyzeWebsite pa11y urls
  /\ analyzeWebsite pa11y (uniq [] urls) = analyzeWebsite pa11y urls.
Proof.
  intros Hu. rewrite !analyzeWebsite_fields. split.
  - rewrite (uniq_snoc [] urls u) by now left. reflexivity.
  - rewrite (uniq_NoDup [] (uniq [] urls)); [reflexivity|apply NoDup_uniq|].
    intros x _ [].
Qed.

Lemma analyzeWebsite_ignores_duplicates_witness :
  analyzeWebsite twiceScan ["https://example.org/"; "https://example.org/"]
  = analyzeWebsite twiceScan ["https://example.org/"].
Proof.
  apply (proj1 (analyzeWebsite_ignores_duplicates twiceScan
                  ["https://example.org/"] "https://example.org/"
                  (or_introl eq_refl))).
Defined.

(** X6.  The [totalIssues] of a crawl counts grouped entries, so it never
    exceeds the sum of the pages' own [totalIssues], which count raw issues;
    the [affectedElements] of all entries add up to that sum. *)
Theorem analyzeWebsite_totals (pa11y : string -> option Results)
  (urls : list string) :
  let w := analyzeWebsite pa11y urls in
  totalIssues w <= list_sum (map p_totalIssues (pageAnalyses w))
  /\ list_sum (map affectedOf (concat (map p_issues (pageAnalyses w))))
     = list_sum (map p_totalIssues (pageAnalyses w)).
Proof.
  intros w. subst w. rewrite analyzeWebsite_fields. simpl.
  rewrite length_concat, p_issues_okPages, p_totalIssues_okPages, !map_map.
  generalize (scans pa11y (uniq [] urls)). intros rs. split.
  - induction rs as [|r rs IH]; simpl; [lia|].
    pose proof (length_uniq_groupKey (r_issues r)). lia.
  - induction rs as [|r rs IH]; simpl; [reflexivity|].
    rewrite map_app, list_sum_app, sum_affectedOf. now rewrite IH.
Qed.

(** ** scraper.js *)

Module ScraperFacts.
Import WebScraper GroupFoldOrder.

Lemma NoDup_take {A} n (l : list A) : NoDup l -> NoDup (firstn n l).
Proof.
  revert n. induction l as [|x l IH]; intros n Hnd.
  - rewrite firstn_nil. constructor.
  - destruct n as [|n]; [constructor|]. simpl.
    inversion Hnd as [|? ? Hx Hnd']; subst. constructor; [|now apply IH].
    intros H. apply Hx. revert H. clear. revert n.
    induction l as [|y l IH]; intros n; [rewrite firstn_nil; tauto|].
    destruct n; simpl; [tauto|]. intros [H|H]; [now left|right; eauto].
Qed.

Section Crawler.
Variable hostname : string -> option string.
Variable _extractLinks : string -> string -> list string.
Variable baseDomain : string.
Variable maxPages : nat.

Lemma has_In' x l : has x l = true <-> In x l.
Proof. apply has_In. Qed.

(** What one page adds: some of its links, to both lists. *)
Lemma addLink_fold links pages next pages' next' :
  fold_left (addLink maxPages) links (pages, next) = (pages', next') ->
  exists added,
    pages' = (pages ++ added)%list /\ next' = (next ++ added)%list
    /\ incl added links
    /\ (NoDup pages -> NoDup pages')
    /\ length pages' <= Nat.max (length pages) maxPages.
Proof.
  revert pages next. induction links as [|l links IH]; intros pages next.
  - simpl. intros [= <- <-]. exists []. rewrite !app_nil_r.
    repeat split; [apply incl_refl|auto|lia].
  - cbn [fold_left].
    assert (Ha : addLink maxPages (pages, next) l
                 = if negb (has l pages) && (length pages <? maxPages)
                   then ((pages ++ [l])%list, (next ++ [l])%list)
                   else (pages, next)) by reflexivity.
    rewrite Ha. clear Ha.
    destruct (negb (has l pages) && (length pages <? maxPages)) eqn:E.
    + apply andb_true_iff in E as [Hl Hlen].
      apply negb_true_iff in Hl. apply Nat.ltb_lt in Hlen.
      intros H. apply IH in H as (added & -> & -> & Hincl & Hnd & Hle).
      exists (l :: added). rewrite <- !app_assoc. simpl.
      repeat split.
      * intros x [<-|Hx]; [now left|right; now apply Hincl].
      * intros Hp. change (pages ++ l :: added)%list
          with (pages ++ [l] ++ added)%list. rewrite app_assoc.
        apply Hnd. apply NoDup_rev in Hp.
        rewrite <- (rev_involutive (pages ++ [l])). apply NoDup_rev.
        rewrite rev_app_distr. simpl. constructor; [|assumption].
        rewrite <- in_rev. intros Hin. apply has_In' in Hin. congruence.
      * change (pages ++ l :: added)%list
          with (pages ++ [l] ++ added)%list. rewrite app_assoc.
        rewrite (length_app pages [l]) in Hle. simpl in Hle. lia.
    + intros H. apply IH in H as (added & -> & -> & Hincl & Hnd & Hle).
      exists added. repeat split; try assumption.
      intros x Hx. right. now apply Hincl.
Qed.

(** What one round adds: links of the pages it visits. *)
Lemma visitPage_fold toCrawl pages visited next pages' visited' next' :
  fold_left (visitPage _extractLinks baseDomain maxPages) toCrawl
            (pages, visited, next) = (pages', visited', next') ->
  exists added,
    pages' = (pages ++ added)%list /\ next' = (next ++ added)%list
    /\ (forall x, In x added ->
          exists q, In q toCrawl /\ In x (_extractLinks q baseDomain))
    /\ (NoDup pages -> NoDup pages')
    /\ length pages' <= Nat.max (length pages) maxPages.
Proof.
  revert pages visited next.
  induction toCrawl as [|p toCrawl IH]; intros pages visited next.
  - simpl. intros [= <- _ <-]. exists []. rewrite !app_nil_r.
    repeat split; [intros x []|auto|lia].
  - cbn [fold_left].
    assert (Hv : visitPage _extractLinks baseDomain maxPages
                   (pages, visited, next) p
                 = if has p visited || (maxPages <=? length pages)
                   then (pages, visited, next)
                   else let '(pages1, next1) :=
                          fold_left (addLink maxPages)
                                    (_extractLinks p baseDomain) (pages, next)
                        in (pages1, p :: visited, next1)) by reflexivity.
    rewrite Hv. clear Hv.
    destruct (has p visited || (maxPages <=? length pages)).
    + intros H. apply IH in H as (added & -> & -> & Hprov & Hnd & Hle).
      exists added. repeat split; try assumption.
      intros x Hx. destruct (Hprov x Hx) as (q & Hq & Hin).
      exists q. split; [now right|assumption].
    + destruct (fold_left (addLink maxPages) (_extractLinks p baseDomain)
                          (pages, next)) as [pages1 next1] eqn:E.
      apply addLink_fold in E as (a1 & -> & -> & Hincl & Hnd1 & Hle1).
      intros H. apply IH in H as (a2 & -> & -> & Hprov & Hnd2 & Hle2).
      exists (a1 ++ a2)%list. rewrite <- !app_assoc. repeat split.
      * intros x Hx. apply in_app_or in Hx as [Hx|Hx].
        -- exists p. split; [now left|now apply Hincl].
        -- destruct (Hprov x Hx) as (q & Hq & Hin).
           exists q. split; [now right|assumption].
      * intros Hp. rewrite app_assoc. auto.
      * rewrite app_assoc. lia.
Qed.

(** The pages of a crawl: those it starts with, then links of its pages. *)
Lemma crawl_inv depths pages visited toCrawl :
  incl toCrawl pages ->
  exists added,
    crawl _extractLinks baseDomain maxPages depths pages visited toCrawl
    = (pages ++ added)%list
    /\ (NoDup pages -> NoDup (pages ++ added))
    /\ length (pages ++ added) <= Nat.max (length pages) maxPages
    /\ (forall x, In x added ->
          exists q, In q (pages ++ added)
                    /\ In x (_extractLinks q baseDomain)).
Proof.
  revert pages visited toCrawl.
  induction depths as [|d IH]; intros pages visited toCrawl Hincl.
  - exists []. simpl. rewrite app_nil_r. repeat split; [auto|lia|intros x []].
  - simpl.
    destruct ((maxPages <=? length pages)
              || match toCrawl with [] => true | _ => false end).
    + exists []. rewrite app_nil_r. repeat split; [auto|lia|intros x []].
    + destruct (fold_left (visitPage _extractLinks baseDomain maxPages)
                          toCrawl (pages, visited, []))
        as [[pages1 visited1] next1] eqn:E.
      apply visitPage_fold in E as (a1 & -> & -> & Hprov1 & Hnd1 & Hle1).
      destruct (IH (pages ++ a1)%list visited1 ([] ++ a1)%list)
        as (a2 & Heq & Hnd2 & Hle2 & Hprov2).
      { simpl. intros x Hx. apply in_or_app. now right. }
      exists (a1 ++ a2)%list. rewrite Heq, <- app_assoc. repeat split.
      * intros Hp. rewrite app_assoc. auto.
      * rewrite app_assoc. lia.
      * intros x Hx. apply in_app_or in Hx as [Hx|Hx].
        -- destruct (Hprov1 x Hx) as (q & Hq & Hin). exists q.
           split; [|assumption]. apply in_or_app. left. now apply Hincl.
        -- destruct (Hprov2 x Hx) as (q & Hq & Hin). exists q.
           split; [|assumption]. now rewrite app_assoc.
Qed.

(** What a successful discovery returns. *)
Lemma discoverPages_Ok startUrl maxDepth pages :
  discoverPages hostname _extractLinks startUrl maxDepth maxPages = Ok pages ->
  exists added,
    hostname startUrl = Some baseDomain ->
    crawl _extractLinks baseDomain maxPages maxDepth [startUrl] [] [startUrl]
    = (startUrl :: added)
    /\ NoDup (startUrl :: added)
    /\ length (startUrl :: added) <= Nat.max 1 maxPages
    /\ pages = firstn maxPages (startUrl :: added)
    /\ (forall x, In x added ->
          exists q, In q (startUrl :: added)
                    /\ In x (_extractLinks q baseDomain)).
Proof.
  unfold discoverPages. intros H.
  destruct (crawl_inv maxDepth [startUrl] [] [startUrl] (incl_refl _))
    as (added & Heq & Hnd & Hle & Hprov).
  exists added. intros Hb. rewrite Hb in H. injection H as <-.
  assert (Hnd' : NoDup (startUrl :: added)).
  { apply Hnd. constructor; [intros []|constructor]. }
  rewrite Heq. simpl app.
  rewrite (uniq_NoDup [] _ Hnd') by (intros x _ []).
  repeat split; try assumption.
Qed.
End Crawler.

End ScraperFacts.

Import ScraperFacts.

(** X7.  The pages discovered are at most [maxPages], all distinct (the
    final deduplication finds nothing to remove), the start URL comes first,
    and every other page is a link of a discovered page. *)
Theorem discoverPages_bounded_distinct
  (hostname : string -> option string)
  (_extractLinks : string -> string -> list string)
  (startUrl : string) (maxDepth maxPages : nat) (pages : list string) :
  WebScraper.discoverPages hostname _extractLinks startUrl maxDepth maxPages
  = Ok pages ->
  exists baseDomain,
    hostname startUrl = Some baseDomain
    /\ length pages <= maxPages
    /\ NoDup pages
    /\ pages = firstn maxPages
                 (WebScraper.crawl _extractLinks baseDomain maxPages maxDepth
                    [startUrl] [] [startUrl])
    /\ (0 < maxPages -> hd_error pages = Some startUrl)
    /\ (forall x, In x pages ->
          x = startUrl
          \/ exists q, In q pages /\ In x (_extractLinks q baseDomain)).
Proof.
  intros H.
  destruct (hostname startUrl) as [baseDomain|] eqn:Hb;
    [|unfold WebScraper.discoverPages in H; now rewrite Hb in H].
  exists baseDomain.
  destruct (discoverPages_Ok hostname _extractLinks baseDomain maxPages
              startUrl maxDepth pages H) as (added & Hadd).
  destruct (Hadd Hb) as (Heq & Hnd & Hle & -> & Hprov).
  rewrite Heq.
  split; [reflexivity|]. split; [apply firstn_le_length|].
  split; [now apply NoDup_take|]. split; [reflexivity|].
  destruct maxPages as [|m].
  - split; [lia|]. intros x [].
  - assert (Hall : firstn (S m) (startUrl :: added) = startUrl :: added).
    { apply firstn_all2. simpl in *. lia. }
    rewrite Hall. split; [reflexivity|].
    intros x [<-|Hx]; [now left|]. right. apply (Hprov x Hx).
Qed.

Lemma discoverPages_bounded_distinct_witness :
  exists baseDomain,
    siteHostname "https://example.org/" = Some baseDomain
    /\ length ["https://example.org/"; "https://example.org/a"] <= 2
    /\ NoDup ["https://example.org/"; "https://example.org/a"]
    /\ ["https://example.org/"; "https://example.org/a"]
       = firstn 2
           (WebScraper.crawl siteLinks baseDomain 2 2
              ["https://example.org/"] [] ["https://example.org/"])
    /\ (0 < 2 ->
        hd_error ["https://example.org/"; "https://example.org/a"]
        = Some "https://example.org/")
    /\ (forall x, In x ["https://example.org/"; "https://example.org/a"] ->
          x = "https://example.org/"
          \/ exists q,
               In q ["https://example.org/"; "https://example.org/a"]
               /\ In x (siteLinks q baseDomain)).
Proof.
  apply (discoverPages_bounded_distinct siteHostname siteLinks
           "https://example.org/" 2 2).
  reflexivity.
Defined.

(** X8.  The edges of discovery: a start URL that does not parse makes it
    throw, and no other; with depth 0 or a limit of one page it returns the
    start URL alone, and with a limit of 0 it returns nothing. *)
Theorem discoverPages_edges
  (hostname : string -> option string)
  (_extractLinks : string -> string -> list string)
  (startUrl : string) (maxDepth maxPages : nat) :
  (WebScraper.discoverPages hostname _extractLinks startUrl maxDepth maxPages
   = Throw <-> hostname startUrl = None)
  /\ (hostname startUrl <> None ->
      WebScraper.discoverPages hostname _extractLinks startUrl 0 (S maxPages)
      = Ok [startUrl]
      /\ WebScraper.discoverPages hostname _extractLinks startUrl maxDepth 1
         = Ok [startUrl]
      /\ WebScraper.discoverPages hostname _extractLinks startUrl maxDepth 0
         = Ok []).
Proof.
  unfold WebScraper.discoverPages. split.
  - destruct (hostname startUrl); split; congruence.
  - intros H. destruct (hostname startUrl) as [b|]; [|congruence].
    split; [simpl; now rewrite firstn_nil|].
    split; destruct maxDepth; reflexivity.
Qed.

Lemma discoverPages_edges_witness :
  WebScraper.discoverPages siteHostname siteLinks "https://example.org/" 0 10
  = Ok ["https://example.org/"]
  /\ WebScraper.discoverPages siteHostname siteLinks "https://example.org/" 2 1
     = Ok ["https://example.org/"]
  /\ WebScraper.discoverPages siteHostname siteLinks "https://example.org/" 2 0
     = Ok [].
Proof.
  apply (proj2 (discoverPages_edges siteHostname siteLinks
                  "https://example.org/" 2 9)).
  discriminate.
Defined.

(** X9.  Discovery followed by analysis, as [analyzeWCAG] runs them: every
    discovered page is analysed, when its analysis returns, or listed as
    failed, when its analysis throws; none is dropped as a duplicate, no
    more than [maxPages] pages are analysed, and the report's [baseUrl] is
    the start URL. *)
Theorem discover_then_analyze
  (hostname : string -> option string)
  (_extractLinks : string -> string -> list string)
  (pa11y : string -> option Results)
  (startUrl : string) (maxDepth maxPages : nat) (pages : list string) :
  WebScraper.discoverPages hostname _extractLinks startUrl maxDepth maxPages
  = Ok pages ->
  let w := analyzeWebsite pa11y pages in
  uniq [] pages = pages
  /\ pagesAnalyzed w + length (failedPages w) = length pages
  /\ pagesAnalyzed w <= maxPages
  /\ map p_url (pageAnalyses w) = filter (analysed pa11y) pages
  /\ failedPages w = filter (fun u => negb (analysed pa11y u)) pages
  /\ (0 < maxPages -> baseUrl w = startUrl).
Proof.
  intros H w.
  destruct (hostname startUrl) as [baseDomain|] eqn:Hb;
    [|unfold WebScraper.discoverPages in H; now rewrite Hb in H].
  destruct (discoverPages_Ok hostname _extractLinks baseDomain maxPages
              startUrl maxDepth pages H) as (added & Hadd).
  destruct (Hadd Hb) as (_ & Hnd & _ & Hp & _).
  assert (Hnd' : NoDup pages) by (rewrite Hp; now apply NoDup_take).
  assert (Hu : uniq [] pages = pages)
    by (apply uniq_NoDup; [assumption|intros x _ []]).
  subst w. rewrite analyzeWebsite_fields. simpl. rewrite Hu.
  split; [reflexivity|]. split; [apply length_okPages_failed|].
  split.
  - pose proof (length_okPages_failed pa11y pages).
    assert (length pages <= maxPages)
      by (rewrite Hp; apply firstn_le_length).
    lia.
  - split; [apply p_url_okPages|]. split; [apply failedUrls_filter|].
    intros Hm. rewrite Hp. destruct maxPages; [lia|reflexivity].
Qed.

Lemma discover_then_analyze_witness :
  let w := analyzeWebsite twiceScan
             ["https://example.org/"; "https://example.org/a"] in
  uniq [] ["https://example.org/"; "https://example.org/a"]
  = ["https://example.org/"; "https://example.org/a"]
  /\ pagesAnalyzed w + length (failedPages w) = 2
  /\ pagesAnalyzed w <= 2
  /\ map p_url (pageAnalyses w)
     = filter (analysed twiceScan)
              ["https://example.org/"; "https://example.org/a"]
  /\ failedPages w
     = filter (fun u => negb (analysed twiceScan u))
              ["https://example.org/"; "https://example.org/a"]
  /\ (0 < 2 -> baseUrl w = "https://example.org/").
Proof.
  apply (discover_then_analyze siteHostname siteLinks twiceScan
           "https://example.org/" 2 2).
  reflexivity.
Defined.

(** ** index.js: [convertLocalhostUrl] *)

Module UrlFacts.
Import RegexFacts.

Lemma length_dropChars n s :
  startsWith n s = true ->
  String.length (dropChars (String.length n) s) + String.length n
  = String.length s.
Proof.
  revert s. induction n as [|c n IH]; intros s; simpl; [lia|].
  destruct s as [|c' s]; [discriminate|].
  intros H. apply andb_true_iff in H as [_ H]. simpl.
  specialize (IH s H). lia.
Qed.

Lemma startsWith_append n s : startsWith n (n ++ s) = true.
Proof.
  induction n as [|c n IH]; simpl; [reflexivity|].
  now rewrite Ascii.eqb_refl.
Qed.

Lemma dropChars_append n s : dropChars (String.length n) (n ++ s) = s.
Proof. induction n as [|c n IH]; simpl; [reflexivity|assumption]. Qed.

(** Where the needle does not occur, nothing is replaced. *)
Lemma replace_absent n r s : includes n s = false -> replace n r s = s.
Proof.
  induction s as [|c s IH]; simpl.
  - destruct (startsWith n ""); [discriminate|reflexivity].
  - destruct (startsWith n (String c s)); [discriminate|].
    intros H. now rewrite IH.
Qed.

(** One occurrence is replaced, and no more. *)
Lemma length_replace n r s :
  includes n s = true ->
  String.length (replace n r s) + String.length n
  = String.length s + String.length r.
Proof.
  induction s as [|c s IH]; simpl.
  - destruct (startsWith n "") eqn:E; [|discriminate]. intros _.
    rewrite length_append. pose proof (length_dropChars n "" E).
    simpl in H. lia.
  - destruct (startsWith n (String c s)) eqn:E.
    + intros _. rewrite length_append.
      pose proof (length_dropChars n (String c s) E). simpl in H. lia.
    + intros H. simpl. specialize (IH H). lia.
Qed.

Lemma includes_here n s : startsWith n s = true -> includes n s = true.
Proof. destruct s; simpl; now intros ->. Qed.

Lemma includes_mid n pre post : includes n (pre ++ n ++ post) = true.
Proof.
  induction pre as [|x pre IH].
  - change (includes n (n ++ post) = true).
    apply includes_here, startsWith_append.
  - simpl append. cbn [includes].
    destruct (startsWith n (String x (pre ++ n ++ post))); [reflexivity|].
    exact IH.
Qed.

(** An occurrence is replaced where it stands. *)
Lemma replace_shape n r s :
  includes n s = true ->
  exists pre post, s = pre ++ n ++ post /\ replace n r s = pre ++ r ++ post.
Proof.
  assert (Hcut : forall t, startsWith n t = true ->
                   t = n ++ dropChars (String.length n) t).
  { induction n as [|x n IH]; intros t; simpl; [reflexivity|].
    destruct t as [|y t]; [discriminate|].
    intros H. apply andb_true_iff in H as [Hx H].
    apply Ascii.eqb_eq in Hx. subst. f_equal. now apply IH. }
  induction s as [|c s IH]; simpl.
  - destruct (startsWith n "") eqn:E; [|discriminate]. intros _.
    exists "", (dropChars (String.length n) ""). split; [|reflexivity].
    now apply Hcut.
  - destruct (startsWith n (String c s)) eqn:E.
    + intros _. exists "", (dropChars (String.length n) (String c s)).
      split; [|reflexivity]. now apply Hcut.
    + intros H. destruct (IH H) as (pre & post & Hs & Hr).
      exists (String c pre), post. simpl. rewrite Hr. now rewrite Hs at 1.
Qed.

Lemma startsWith_app_long n a b :
  String.length n <= String.length a ->
  startsWith n (a ++ b) = startsWith n a.
Proof.
  revert a. induction n as [|x n IH]; intros a; simpl; [reflexivity|].
  destruct a as [|y a]; simpl; [lia|].
  intros H. rewrite IH by lia. reflexivity.
Qed.

(** The occurrence replaced is the first one. *)
Lemma replace_first n' c r pre post :
  includes (n' ++ String c "") (pre ++ n') = false ->
  replace (n' ++ String c "") r (pre ++ (n' ++ String c "") ++ post)
  = pre ++ r ++ post.
Proof.
  set (n := n' ++ String c ""). induction pre as [|x pre IH]; intros H.
  - simpl append. destruct (n ++ post) as [|y t] eqn:E.
    + destruct n' ; discriminate.
    + cbn [replace]. rewrite <- E, startsWith_append, dropChars_append.
      reflexivity.
  - simpl in H.
    destruct (startsWith n (String x (pre ++ n'))) eqn:E; [discriminate|].
    simpl append. cbn [replace].
    replace (startsWith n (String x (pre ++ n ++ post))) with false.
    + now rewrite IH.
    + symmetry. rewrite <- E. unfold n.
      rewrite (append_assoc n' (String c "") post).
      rewrite <- (append_assoc pre n' (String c "" ++ post)).
      change (String x ((pre ++ n') ++ String c "" ++ post))
        with (String x (pre ++ n') ++ (String c "" ++ post)).
      apply startsWith_app_long. simpl.
      rewrite !length_append. simpl. lia.
Qed.

(** A character foreign to the needle cuts the search in two. *)
Lemma startsWith_foreign c n a r :
  lacks c n = true ->
  startsWith n (a ++ String c r) = startsWith n a.
Proof.
  revert a. induction n as [|x n IH]; intros a; simpl; [reflexivity|].
  intros H. apply andb_true_iff in H as [Hx H]. apply negb_true_iff in Hx.
  destruct a as [|y a]; simpl.
  - rewrite Ascii.eqb_sym in Hx. now rewrite Hx.
  - now rewrite IH.
Qed.

Lemma includes_foreign c n pre r :
  n <> "" -> lacks c n = true ->
  includes n (pre ++ String c r) = includes n pre || includes n (String c r).
Proof.
  intros Hne Hc. induction pre as [|x pre IH].
  - simpl append. destruct n; [congruence|]. reflexivity.
  - simpl append. cbn [includes].
    change (String x (pre ++ String c r)) with (String x pre ++ String c r).
    rewrite (startsWith_foreign c n (String x pre) r Hc).
    destruct (startsWith n (String x pre)); [reflexivity|]. exact IH.
Qed.

(** Replacing [localhost] neither makes nor unmakes a [127.0.0.1]. *)
Lemma includes_ip_replace s :
  includes "127.0.0.1" (replace "localhost" "host.docker.internal" s)
  = includes "127.0.0.1" s.
Proof.
  destruct (includes "localhost" s) eqn:E.
  - destruct (replace_shape "localhost" "host.docker.internal" s E)
      as (pre & post & -> & ->).
    change ("localhost" ++ post) with (String "l" ("ocalhost" ++ post)).
    change ("host.docker.internal" ++ post)
      with (String "h" ("ost.docker.internal" ++ post)).
    rewrite !includes_foreign by (discriminate || reflexivity).
    f_equal.
  - now rewrite replace_absent.
Qed.

End UrlFacts.

Import UrlFacts.

(** X10.  A URL comes back unchanged exactly when it mentions neither
    [localhost] nor [127.0.0.1]. *)
Theorem convertLocalhostUrl_unchanged_iff (url : string) :
  convertLocalhostUrl url = url
  <-> includes "localhost" url = false /\ includes "127.0.0.1" url = false.
Proof.
  unfold convertLocalhostUrl. split.
  - intros H.
    destruct (includes "localhost" url) eqn:E1;
      [|destruct (includes "127.0.0.1" url) eqn:E2; [|auto]]; exfalso;
      simpl in H; apply (f_equal String.length) in H.
    + pose proof (length_replace "localhost" "host.docker.internal" url E1)
        as H1. simpl in H1.
      destruct (includes "127.0.0.1"
                  (replace "localhost" "host.docker.internal" url)) eqn:E2.
      * pose proof (length_replace "127.0.0.1" "host.docker.internal" _ E2)
          as H2. simpl in H2. lia.
      * rewrite (replace_absent _ _ _ E2) in H. lia.
    + rewrite (replace_absent "localhost" _ _ E1) in H.
      pose proof (length_replace "127.0.0.1" "host.docker.internal" url E2)
        as H2. simpl in H2. lia.
  - now intros [-> ->].
Qed.

(** X11.  Each of the two host names is replaced once at most, whatever the
    number of its occurrences: the result is longer by 11 characters for
    each name the URL mentions. *)
Theorem convertLocalhostUrl_length (url : string) :
  String.length (convertLocalhostUrl url)
  = String.length url
    + (if includes "localhost" url then 11 else 0)
    + (if includes "127.0.0.1" url then 11 else 0).
Proof.
  unfold convertLocalhostUrl.
  pose proof (includes_ip_replace url) as Hip.
  destruct (includes "localhost" url) eqn:E1;
    destruct (includes "127.0.0.1" url) eqn:E2; simpl orb; cbv iota.
  - pose proof (length_replace "localhost" "host.docker.internal" url E1).
    pose proof (length_replace "127.0.0.1" "host.docker.internal" _ Hip).
    simpl in *. lia.
  - pose proof (length_replace "localhost" "host.docker.internal" url E1).
    rewrite (replace_absent _ _ _ Hip). simpl in *. lia.
  - rewrite (replace_absent "localhost" _ _ E1) in *.
    pose proof (length_replace "127.0.0.1" "host.docker.internal" url E2).
    simpl in *. lia.
  - lia.
Qed.

(** X12.  It is the first [localhost] that becomes
    [host.docker.internal]; what stands before and after it is kept,
    a later [localhost] included. *)
Theorem convertLocalhostUrl_first (pre post : string) :
  includes "localhost" (pre ++ "localhos") = false ->
  includes "127.0.0.1" pre = false ->
  includes "127.0.0.1" post = false ->
  convertLocalhostUrl (pre ++ "localhost" ++ post)
  = pre ++ "host.docker.internal" ++ post.
Proof.
  intros Hfirst Hpre Hpost. unfold convertLocalhostUrl.
  rewrite (includes_mid "localhost" pre post). simpl orb. cbv iota.
  pose proof (replace_first "localhos" "t" "host.docker.internal" pre post
                Hfirst) as Hr.
  change ("localhos" ++ "t") with "localhost" in Hr. rewrite Hr.
  apply replace_absent.
  change ("host.docker.internal" ++ post)
    with (String "h" ("ost.docker.internal" ++ post)).
  rewrite includes_foreign by (discriminate || reflexivity).
  rewrite Hpre. simpl. exact Hpost.
Qed.

Lemma convertLocalhostUrl_first_witness :
  convertLocalhostUrl ("http://" ++ "localhost" ++ ":3000/?next=localhost")
  = "http://" ++ "host.docker.internal" ++ ":3000/?next=localhost".
Proof.
  apply (convertLocalhostUrl_first "http://" ":3000/?next=localhost");
    reflexivity.
Defined.

(** ** reporter.js: the entries and the worksheet *)

Module ReporterOrder.
Import JsObject JsObjectFacts GroupFold GroupFoldFacts GroupFoldOrder.
Import ExcelReporter RegexFacts ReporterFacts.

Lemma number_group gs i : Forall number gs -> i < length gs ->
  number (nth i gs "").
Proof.
  intros H Hi. rewrite Forall_forall in H. apply H. now apply nth_In.
Qed.

(** Whatever the code, the criterion found is three numbers with dots. *)
Lemma resolve_criterionId c p k :
  resolve c = Some (p, k) -> number p /\ criterionId k.
Proof.
  unfold resolve, optMatch. destruct c as [s|]; [|discriminate].
  destruct (exec reStructured s) as [m|] eqn:E.
  - intros [= <- <-]. apply exec_sound in E as (_ & _ & _ & Hn & Hl).
    change (groups reStructured) with 6 in Hl. unfold group. simpl Nat.sub.
    split; [apply number_group; [assumption|lia]|].
    exists (nth 3 m ""), (nth 4 m ""), (nth 5 m "").
    split; [apply number_group; [assumption|lia]|].
    split; [apply number_group; [assumption|lia]|].
    split; [apply number_group; [assumption|lia]|reflexivity].
  - destruct (exec reAlt s) as [m|] eqn:E'; [|discriminate].
    intros [= <- <-]. apply exec_sound in E' as (_ & _ & _ & Hn & Hl).
    change (groups reAlt) with 3 in Hl. unfold group. simpl Nat.sub.
    split; [apply number_group; [assumption|lia]|].
    exists (nth 0 m ""), (nth 1 m ""), (nth 2 m "").
    split; [apply number_group; [assumption|lia]|].
    split; [apply number_group; [assumption|lia]|].
    split; [apply number_group; [assumption|lia]|reflexivity].
Qed.

Lemma fields_absorb v l :
  principle (absorb mapAdd v l) = principle v
  /\ criterion (absorb mapAdd v l) = criterion v.
Proof.
  unfold absorb. revert v. induction l as [|a l IH]; intros v; [auto|].
  simpl fold_left. destruct (IH (mapAdd a v)) as [-> ->]. auto.
Qed.

Lemma filedKeys_mapCls l : filedKeys mapCls l = criteriaOf l.
Proof.
  unfold filedKeys, criteriaOf. apply flat_map_ext. intros i.
  unfold mapCls, criterionOf. now destruct (resolve (code i)) as [[p c]|].
Qed.

Lemma length_criteriaOf l :
  length (criteriaOf l) = length (filter resolvable l).
Proof.
  unfold criteriaOf, resolvable. induction l as [|i l IH]; [reflexivity|].
  simpl. destruct (criterionOf i); simpl; now rewrite IH.
Qed.

(** A row that starts with a criterion identifier is read as that
    criterion. *)
Lemma criterionMatch_id c rest :
  criterionId c -> noDigitAhead rest ->
  Worksheet.criterionMatch (c ++ rest) = Some c.
Proof.
  intros (a & b & d & Ha & Hb & Hd & ->) Hrest.
  unfold Worksheet.criterionMatch.
  assert (Hm : matchHere reAlt ((a ++ "." ++ b ++ "." ++ d) ++ rest)
               = Some ([a; b; d], rest)).
  { rewrite !append_assoc. unfold reAlt. cbn [concat lit app append].
    apply matchHere_Digs; [assumption| |reflexivity].
    cbn [matchHere Ascii.eqb Bool.eqb].
    change (matchHere (Digs :: Lit "." :: [Digs])
              (b ++ String "." (d ++ rest)) = Some ([b; d], rest)).
    apply matchHere_Digs; [assumption| |reflexivity].
    cbn [matchHere Ascii.eqb Bool.eqb].
    change (matchHere [Digs] (d ++ rest) = Some ([d], rest)).
    apply matchHere_Digs; [assumption|reflexivity|assumption]. }
  rewrite Hm. reflexivity.
Qed.

(** A row that does not start with a digit is read as no criterion. *)
Lemma criterionMatch_other s :
  match s with
  | String x _ => isDigit x = false
  | EmptyString => True
  end -> Worksheet.criterionMatch s = None.
Proof.
  unfold Worksheet.criterionMatch, reAlt. cbn [concat lit app matchHere].
  destruct s as [|x s]; [reflexivity|]. intros H. simpl. now rewrite H.
Qed.

(** The detail lines: all of them, or an exception. *)
Lemma forOf_lines (f : Violation -> result string) l acc :
  (exists i, In i l /\ f i = Throw
             /\ forOf (fun lines issue =>
                         line <- f issue ;; Ok (lines ++ [line])%list) l acc
                = Throw)
  \/ (exists lines,
        Forall2 (fun i line => f i = Ok line) l lines
        /\ forOf (fun lines issue =>
                    line <- f issue ;; Ok (lines ++ [line])%list) l acc
           = Ok (acc ++ lines)%list).
Proof.
  revert acc. induction l as [|i l IH]; intros acc.
  - right. exists []. simpl. rewrite app_nil_r. split; [constructor|reflexivity].
  - simpl. destruct (f i) as [line|] eqn:E; simpl.
    + destruct (IH (acc ++ [line])%list) as [(j & Hj & Hf & Ht)|(ls & Hl & Ho)].
      * left. exists j. repeat split; [now right|assumption|assumption].
      * right. exists (line :: ls). split; [now constructor|].
        rewrite Ho, <- app_assoc. reflexivity.
    + left. exists i. repeat split; [now left|assumption].
Qed.

Lemma length_substring n m s : String.length (substring n m s) <= m.
Proof.
  revert n m. induction s as [|c s IH]; intros n m.
  - destruct n, m; simpl; lia.
  - destruct n as [|n].
    + destruct m as [|m]; simpl; [lia|]. specialize (IH 0 m). lia.
    + simpl. apply IH.
Qed.

Lemma substring_all m s : String.length s <= m -> substring 0 m s = s.
Proof.
  revert m. induction s as [|c s IH]; intros m H.
  - now destruct m.
  - destruct m as [|m]; simpl in *; [lia|]. rewrite IH by lia. reflexivity.
Qed.

Lemma truncate_bound m :
  String.length (Worksheet.truncate m) <= 103
  /\ (String.length m <= 100 -> Worksheet.truncate m = m).
Proof.
  unfold Worksheet.truncate. split.
  - rewrite length_append. pose proof (length_substring 0 100 m).
    destruct (100 <? String.length m); simpl; lia.
  - intros H. rewrite substring_all by assumption.
    assert (Hlt : (100 <? String.length m) = false) by now apply Nat.ltb_ge.
    rewrite Hlt.
    apply append_nil_r.
Qed.

End ReporterOrder.

Import ReporterOrder.

(** X13.  Every key of the spreadsheet mapping is a criterion identifier,
    three numbers separated by dots; its entry names that criterion, a
    principle ["Prinsipp N"] with a number N, and at least one issue. *)
Theorem mapViolations_entries_wellformed (analysis : Analysis) :
  Forall (fun kv =>
            criterionId (fst kv)
            /\ ExcelReporter.criterion (snd kv) = fst kv
            /\ (exists p, number p
                          /\ ExcelReporter.principle (snd kv) = "Prinsipp " ++ p)
            /\ ExcelReporter.issues (snd kv) <> [])
         (ExcelReporter._mapViolationsToWCAG analysis).
Proof.
  apply Forall_forall. intros [k v] H. simpl.
  unfold ExcelReporter._mapViolationsToWCAG in H. rewrite fold_mapStep in H.
  apply GroupFoldFacts.In_fold in H as (a & rest & init & _ & Hc & ->).
  unfold mapCls in Hc. destruct (resolve (code a)) as [[p c]|] eqn:E;
    [|discriminate].
  injection Hc as <- <-.
  destruct (resolve_criterionId _ _ _ E) as [Hp Hk].
  destruct (fields_absorb (ExcelReporter.mkCriterion ("Prinsipp " ++ p) c [])
              (a :: rest)) as [Hpr Hcr].
  split; [assumption|]. split; [exact Hcr|].
  split; [exists p; split; [assumption|exact Hpr]|].
  rewrite issues_absorb. simpl. discriminate.
Qed.

(** X14.  The spreadsheet mapping files every issue whose code resolves,
    once, and no other: the entries hold as many issues as resolve; the
    criteria stand in the order in which they are first met. *)
Theorem mapViolations_conserves_issues (analysis : Analysis) :
  let all := ExcelReporter.allIssues analysis in
  let result := ExcelReporter._mapViolationsToWCAG analysis in
  list_sum (map (fun kv => length (ExcelReporter.issues (snd kv))) result)
  = length (filter resolvable all)
  /\ keys result = uniq [] (criteriaOf all)
  /\ length result <= length all.
Proof.
  intros all result. subst all result.
  unfold ExcelReporter._mapViolationsToWCAG. rewrite fold_mapStep.
  split; [|split].
  - rewrite <- (map_map snd (fun v => length (ExcelReporter.issues v))).
    change (list_sum (map ?f (map snd ?o))) with (total f o).
    rewrite (total_fold mapCls mapAdd
               (fun v => length (ExcelReporter.issues v))).
    + simpl. rewrite filedKeys_mapCls. apply length_criteriaOf.
    + intros a v. unfold mapAdd, ExcelReporter.pushIssue. simpl.
      rewrite length_app. simpl. lia.
    + intros a k init. unfold mapCls.
      destruct (resolve (code a)) as [[p c]|]; [|discriminate].
      now intros [= _ <-].
  - rewrite keys_fold_order. simpl. now rewrite filedKeys_mapCls.
  - rewrite <- (length_map fst). change (map fst ?o) with (keys o).
    rewrite keys_fold_order. simpl. rewrite filedKeys_mapCls.
    etransitivity; [apply length_uniq|]. rewrite length_criteriaOf.
    apply filter_length_le.
Qed.

Module WorksheetFacts.
Import JsObject JsObjectFacts GroupFold GroupFoldFacts GroupFoldOrder.
Import ExcelReporter RegexFacts ReporterFacts ReporterOrder Worksheet.
Import AnalyzerFacts CrawlFacts.

Lemma get_In {V} k (v : V) (o : JsObject.t V) :
  get k o = Some v -> In (k, v) o.
Proof.
  induction o as [|[k' v'] o IH]; simpl; [discriminate|].
  destruct (String.eqb k k') eqn:E.
  - apply String.eqb_eq in E. intros [= ->]. subst. now left.
  - intros H. right. now apply IH.
Qed.

Lemma key_criterionId analysis k v :
  In (k, v) (_mapViolationsToWCAG analysis) -> criterionId k.
Proof.
  unfold _mapViolationsToWCAG. rewrite fold_mapStep. intros H.
  apply GroupFoldFacts.In_fold in H as (a & rest & init & _ & Hc & _).
  unfold mapCls in Hc. destruct (resolve (code a)) as [[p c]|] eqn:E;
    [|discriminate].
  injection Hc as <- _. now apply (resolve_criterionId _ _ _ E).
Qed.

(** The issues of an entry are issues of the analysis. *)
Lemma issue_of_entry analysis k v i :
  In (k, v) (_mapViolationsToWCAG analysis) -> In i (issues v) ->
  exists issue, In issue (allIssues analysis) /\ i = violationOf issue.
Proof.
  unfold _mapViolationsToWCAG. rewrite fold_mapStep. intros H Hi.
  apply GroupFoldFacts.In_fold in H as (a & rest & init & Hh & Hc & ->).
  rewrite issues_absorb in Hi.
  unfold mapCls in Hc. destruct (resolve (code a)) as [[p c]|]; [|discriminate].
  injection Hc as _ <-.
  change (In i (map violationOf (a :: rest))) in Hi.
  apply in_map_iff in Hi as (issue & <- & Hin). exists issue.
  split; [|reflexivity]. rewrite <- Hh in Hin. unfold hits in Hin.
  now apply filter_In in Hin.
Qed.

Lemma details_cases violations :
  (exists i, In i (firstn 3 (issues violations)) /\ v_message i = None
             /\ details violations = Throw)
  \/ (exists lines,
        details violations = Ok lines
        /\ length lines <= 3
        /\ Forall (fun l => String.length l <= 103) lines).
Proof.
  unfold details.
  destruct (forOf_lines detail (firstn 3 (issues violations)) [])
    as [(i & Hi & Hf & Ht)|(lines & Hl & Ho)].
  - left. exists i. repeat split; try assumption.
    unfold detail in Hf. now destruct (v_message i).
  - right. exists lines. split; [exact Ho|]. split.
    + rewrite <- (Forall2_length Hl). apply firstn_le_length.
    + clear Ho. induction Hl as [|i l rest ls Hi _ IH]; constructor; [|exact IH].
      unfold detail in Hi. destruct (v_message i) as [m|]; [|discriminate].
      injection Hi as <-. apply truncate_bound.
Qed.

Lemma details_Throw_iff violations :
  details violations = Throw
  <-> exists i, In i (firstn 3 (issues violations)) /\ v_message i = None.
Proof.
  split.
  - intros H. destruct (details_cases violations)
      as [(i & Hi & Hm & _)|(lines & Hl & _)]; [eauto|congruence].
  - intros (i & Hi & Hm). unfold details.
    destruct (forOf_lines detail (firstn 3 (issues violations)) [])
      as [(j & _ & _ & Ht)|(lines & HF & _)]; [assumption|]. exfalso.
    revert Hi. generalize (firstn 3 (issues violations)) lines HF. clear -Hm.
    intros l ls HF. induction HF as [|x y l ls Hx _ IH]; [contradiction|].
    intros [->|Hi]; [|now apply IH].
    unfold detail in Hx. now rewrite Hm in Hx.
Qed.

(** The loop over the rows when no row throws. *)
Lemma updateRows_Ok v rows (P : option (string * list string) -> Prop) acc n :
  (forall value, In value rows ->
     exists r, updateRow v value = Ok r /\ P r) ->
  exists cells m,
    forOf (fun st value =>
             r <- updateRow v value ;;
             Ok ((fst st ++ [r])%list,
                 match r with
                 | Some _ => S (snd st)
                 | None => snd st
                 end)) rows (acc, n)
    = Ok ((acc ++ cells)%list, n + m)
    /\ length cells = length rows /\ m <= length rows /\ Forall P cells.
Proof.
  revert acc n. induction rows as [|value rows IH]; intros acc n H.
  - exists [], 0. simpl. rewrite app_nil_r, Nat.add_0_r. auto.
  - destruct (H value (or_introl eq_refl)) as (r & Hr & HP).
    simpl. rewrite Hr. simpl.
    destruct (IH (acc ++ [r])%list
                 (match r with Some _ => S n | None => n end))
      as (cells & m & Heq & Hlen & Hm & HF).
    { intros x Hx. apply H. now right. }
    exists (r :: cells), (match r with Some _ => S m | None => m end).
    rewrite Heq, <- app_assoc. simpl. split.
    + destruct r; do 2 f_equal; lia.
    + split; [lia|]. split; [destruct r; lia|now constructor].
Qed.

(** The loop over the rows throws as soon as one row does. *)
Lemma updateRows_Throw v rows st :
  Exists (fun value => updateRow v value = Throw) rows ->
  forOf (fun st value =>
           r <- updateRow v value ;;
           Ok ((fst st ++ [r])%list,
               match r with
               | Some _ => S (snd st)
               | None => snd st
               end)) rows st
  = Throw.
Proof.
  intros H. revert st. induction H as [value rows H|value rows _ IH];
    intros st; cbn [forOf].
  - now rewrite H.
  - destruct (updateRow v value); [apply IH|reflexivity].
Qed.

Lemma criterionText_string s : criterionText (Object (TextString s)) = Str s.
Proof.
  unfold criterionText. destruct (String.eqb s "") eqn:E; [|reflexivity].
  apply String.eqb_eq in E. now subst.
Qed.

Section Website.
Variable pa11y : string -> option Results.
Variable urls : list string.

(** What the analyzer hands on always has a message and counts at least
    one element. *)
Lemma analyzer_issue issue :
  In issue (allIssues (ofWebsite (analyzeWebsite pa11y urls))) ->
  message issue <> None /\ 1 <= affectedOf issue
  /\ orOne (affectedElements issue) = affectedOf issue.
Proof.
  unfold allIssues, ofWebsite. simpl. rewrite analyzeWebsite_fields. simpl.
  rewrite p_issues_okPages. intros H. apply in_concat in H as (l & Hl & Hin).
  apply in_map_iff in Hl as (r & <- & _).
  apply In_groupedEntries in Hin as (a & rest & _ & ->).
  unfold summary, affectedOf. simpl. repeat split; [discriminate|lia].
Qed.
End Website.

End WorksheetFacts.

Import WorksheetFacts.

(** X15.  The mapping and the worksheet agree on how a criterion is
    written: a row whose cell holds a text that starts with the key of an
    entry, followed by anything but a digit, is read as that criterion and
    receives the status of that entry, whether the cell holds the text as a
    string or as the string [text] of an object (a hyperlink).  A cell
    whose object has no [text], as a rich-text value, is read as empty and
    left as it is. *)
Theorem worksheet_row_finds_entry (analysis : Analysis) (c rest : string)
  (v : ExcelReporter.Criterion) :
  get c (ExcelReporter._mapViolationsToWCAG analysis) = Some v ->
  noDigitAhead rest ->
  Worksheet.criterionMatch (c ++ rest) = Some c
  /\ Worksheet.updateRow (ExcelReporter._mapViolationsToWCAG analysis)
       (Worksheet.Plain (c ++ rest))
     = (lines <- Worksheet.details v ;;
        Ok (Some (ExcelReporter.statusValue v, lines)))
  /\ Worksheet.updateRow (ExcelReporter._mapViolationsToWCAG analysis)
       (Worksheet.Object (Worksheet.TextString (c ++ rest)))
     = (lines <- Worksheet.details v ;;
        Ok (Some (ExcelReporter.statusValue v, lines)))
  /\ Worksheet.updateRow (ExcelReporter._mapViolationsToWCAG analysis)
       (Worksheet.Object Worksheet.TextFalsy)
     = Ok None.
Proof.
  intros Hget Hrest.
  assert (Hm : Worksheet.criterionMatch (c ++ rest) = Some c).
  { apply criterionMatch_id; [|assumption].
    apply (key_criterionId analysis c v). now apply get_In. }
  split; [assumption|]. unfold Worksheet.updateRow.
  rewrite criterionText_string. cbn [Worksheet.criterionText].
  rewrite Hm, Hget. repeat split.
Qed.

Lemma worksheet_row_finds_entry_witness :
  Worksheet.criterionMatch ("1.4.3" ++ " Kontrast (minimum)") = Some "1.4.3"
  /\ Worksheet.updateRow
       (ExcelReporter._mapViolationsToWCAG (flat [lowContrast]))
       (Worksheet.Plain ("1.4.3" ++ " Kontrast (minimum)"))
     = Ok (Some ("Ikke oppfylt", ["Low contrast"]))
  /\ Worksheet.updateRow
       (ExcelReporter._mapViolationsToWCAG (flat [lowContrast]))
       (Worksheet.Object
          (Worksheet.TextString ("1.4.3" ++ " Kontrast (minimum)")))
     = Ok (Some ("Ikke oppfylt", ["Low contrast"])).
Proof.
  destruct (worksheet_row_finds_entry (flat [lowContrast]) "1.4.3"
              " Kontrast (minimum)"
              (ExcelReporter.mkCriterion "Prinsipp 1" "1.4.3"
                 [ExcelReporter.violationOf lowContrast])
              eq_refl eq_refl) as (H1 & H2 & H3 & _).
  split; [exact H1|]. split; [exact H2|exact H3].
Defined.

(** X16.  Writing a row throws exactly when the text read from the cell
    is not a string, or the row names a criterion that has an entry and
    one of the first three issues of the entry has no message; a row whose
    text does not start with a digit is left as it is. *)
Theorem worksheet_row_throws_iff
  (violationsByCriteria : JsObject.t ExcelReporter.Criterion)
  (value : Worksheet.CellValue) :
  (Worksheet.updateRow violationsByCriteria value = Throw
   <-> Worksheet.criterionText value = Worksheet.NotStr
       \/ exists text c violations i,
            Worksheet.criterionText value = Worksheet.Str text
            /\ Worksheet.criterionMatch text = Some c
            /\ get c violationsByCriteria = Some violations
            /\ In i (firstn 3 (ExcelReporter.issues violations))
            /\ ExcelReporter.v_message i = None)
  /\ (forall text,
        Worksheet.criterionText value = Worksheet.Str text ->
        match text with
        | String x _ => isDigit x = false
        | EmptyString => True
        end ->
        Worksheet.updateRow violationsByCriteria value = Ok None).
Proof.
  unfold Worksheet.updateRow.
  destruct (Worksheet.criterionText value) as [text|];
    [|split; [split; [now left|reflexivity]|discriminate]].
  split.
  - destruct (Worksheet.criterionMatch text) as [c|] eqn:Hc.
    + destruct (get c violationsByCriteria) as [violations|] eqn:Hget.
      * pose proof (details_Throw_iff violations) as Hd.
        destruct (Worksheet.details violations) as [lines|]; simpl.
        -- split; [discriminate|].
           intros [H|(t & c' & v' & i & [= <-] & Hc' & Hv & Hi & Hm)];
             [discriminate|].
           rewrite Hc in Hc'. injection Hc' as <-.
           rewrite Hget in Hv. injection Hv as <-.
           assert (Ht : @Ok (list string) lines = Throw)
             by (apply Hd; exists i; split; assumption).
           discriminate Ht.
        -- split; [|reflexivity]. intros _. right.
           destruct (proj1 Hd eq_refl) as (i & Hi & Hm).
           exists text, c, violations, i. auto.
      * split; [discriminate|].
        intros [H|(t & c' & v' & i & [= <-] & Hc' & Hv & _)]; [discriminate|].
        congruence.
    + split; [discriminate|].
      intros [H|(t & c' & v' & i & [= <-] & Hc' & _)]; [discriminate|].
      congruence.
  - intros t [= <-] H. now rewrite (criterionMatch_other _ H).
Qed.

(** X17.  On what the analyzer returns, writing the worksheet throws only
    on a cell whose text is not a string: every issue of every entry has a
    message and counts at least one element; when the cells hold strings,
    every row is written or left alone, with at most three detail lines of
    at most 103 characters. *)
Theorem worksheet_total_on_analyzer_output (pa11y : string -> option Results)
  (urls : list string) (rows : list Worksheet.CellValue) :
  let v := ExcelReporter._mapViolationsToWCAG
             (ofWebsite (analyzeWebsite pa11y urls)) in
  Forall (fun kv =>
            Forall (fun i => ExcelReporter.v_message i <> None
                             /\ 1 <= ExcelReporter.v_affectedElements i)
                   (ExcelReporter.issues (snd kv))) v
  /\ (Worksheet.updateRows v rows = Throw
      <-> Exists (fun value =>
                    Worksheet.criterionText value = Worksheet.NotStr) rows)
  /\ (Forall (fun value =>
                Worksheet.criterionText value <> Worksheet.NotStr) rows ->
      exists cells n,
        Worksheet.updateRows v rows = Ok (cells, n)
        /\ length cells = length rows /\ n <= length rows
        /\ Forall (fun cell =>
                     match cell with
                     | Some (_, lines) =>
                         length lines <= 3
                         /\ Forall (fun l => String.length l <= 103) lines
                     | None => True
                     end) cells).
Proof.
  intros v.
  assert (Hmsg : forall k e i, In (k, e) v -> In i (ExcelReporter.issues e) ->
                   ExcelReporter.v_message i <> None
                   /\ 1 <= ExcelReporter.v_affectedElements i).
  { intros k e i He Hi.
    destruct (issue_of_entry _ k e i He Hi) as (issue & Hin & ->).
    destruct (analyzer_issue pa11y urls issue Hin) as (Hm & Hone & Hor).
    unfold ExcelReporter.violationOf. simpl. rewrite Hor. auto. }
  assert (Hok : Forall (fun value =>
                  Worksheet.criterionText value <> Worksheet.NotStr) rows ->
      exists cells n,
        Worksheet.updateRows v rows = Ok (cells, n)
        /\ length cells = length rows /\ n <= length rows
        /\ Forall (fun cell =>
                     match cell with
                     | Some (_, lines) =>
                         length lines <= 3
                         /\ Forall (fun l => String.length l <= 103) lines
                     | None => True
                     end) cells).
  { intros Hstr. unfold Worksheet.updateRows.
    destruct (updateRows_Ok v rows
                (fun cell =>
                   match cell with
                   | Some (_, lines) =>
                       length lines <= 3
                       /\ Forall (fun l => String.length l <= 103) lines
                   | None => True
                   end) [] 0) as (cells & n & Heq & Hlen & Hn & HF).
    + intros value Hin. unfold Worksheet.updateRow.
      destruct (Worksheet.criterionText value) as [text|] eqn:Ht;
        [|exfalso; now apply (proj1 (Forall_forall _ _) Hstr value Hin)].
      destruct (Worksheet.criterionMatch text) as [c|]; [|exists None; auto].
      destruct (get c v) as [e|] eqn:Hget; [|exists None; auto].
      destruct (details_cases e) as [(i & Hi & Hm & _)|(lines & Hl & Hb)].
      * exfalso. apply (Hmsg c e i); [now apply get_In| |assumption].
        clear -Hi. revert Hi. generalize (ExcelReporter.issues e) 3.
        intros l n. revert n. induction l as [|x l IH]; intros n.
        -- now rewrite firstn_nil.
        -- destruct n; simpl; [tauto|]. intros [H|H]; [now left|right; eauto].
      * rewrite Hl. simpl. eexists. split; [reflexivity|exact Hb].
    + exists cells, n. auto. }
  split; [|split; [|exact Hok]].
  - apply Forall_forall. intros [k e] He. apply Forall_forall.
    intros i Hi. now apply (Hmsg k e).
  - split.
    + intros Hthrow.
      assert (Hc : Forall (fun value =>
                     Worksheet.criterionText value <> Worksheet.NotStr) rows
                   \/ Exists (fun value =>
                         Worksheet.criterionText value = Worksheet.NotStr)
                             rows).
      { clear. induction rows as [|value rows [IH|IH]]; [now left| |].
        - destruct (Worksheet.criterionText value) eqn:E.
          + left. constructor; [congruence|exact IH].
          + right. now constructor.
        - right. now constructor 2. }
      destruct Hc as [Hc|Hc]; [|exact Hc].
      destruct (Hok Hc) as (cells & n & Heq & _). congruence.
    + intros H. apply updateRows_Throw. revert H. apply Exists_impl.
      intros value Hv. unfold Worksheet.updateRow. now rewrite Hv.
Qed.

(** Scenario 4 on one page, and a worksheet of three rows. *)
Lemma worksheet_total_on_analyzer_output_witness :
  exists cells n,
    Worksheet.updateRows
      (ExcelReporter._mapViolationsToWCAG
         (ofWebsite (analyzeWebsite twiceScan ["https://example.org/"])))
      [Worksheet.Plain "Suksesskriterium";
       Worksheet.Plain "1.1.1 Ikke-tekstlig innhold";
       Worksheet.Object Worksheet.TextFalsy]
    = Ok (cells, n)
    /\ length cells = 3 /\ n <= 3.
Proof.
  destruct (proj2 (proj2 (worksheet_total_on_analyzer_output twiceScan
              ["https://example.org/"]
              [Worksheet.Plain "Suksesskriterium";
               Worksheet.Plain "1.1.1 Ikke-tekstlig innhold";
               Worksheet.Object Worksheet.TextFalsy])))
    as (cells & n & H1 & H2 & H3 & _).
  - repeat constructor; discriminate.
  - exists cells, n. split; [exact H1|]. split; [exact H2|exact H3].
Defined.

(** ** index.js: the Markdown mapping *)

Module MarkdownFacts.
Import JsObject JsObjectFacts GroupFold GroupFoldFacts GroupFoldOrder.
Import AnalyzerFacts.
Import RegexFacts ReporterFacts UrlFacts.

Lemma entryStep_step o i :
  WCAGMCPServer.entryStep o i
  = if noCodeIn i then Throw else Ok (step mdCls mdAdd o i).
Proof.
  unfold WCAGMCPServer.entryStep, noCodeIn, step, mdCls, mdCriterionOf.
  destruct (code i) as [c|]; [|reflexivity].
  destruct (exec reGuideline c); reflexivity.
Qed.

(** The Markdown mapping of a crawl: an exception when some issue has no
    code, and the grouping loop over all issues otherwise. *)
Lemma mapViolations_md pages :
  WCAGMCPServer._mapViolationsToWCAG (paged pages)
  = if existsb noCodeIn (concat (map p_issues pages)) then Throw
    else Ok (fold_left (step mdCls mdAdd) (concat (map p_issues pages)) []).
Proof.
  unfold WCAGMCPServer._mapViolationsToWCAG, paged. simpl.
  rewrite (forOf_pure (fun page => existsb noCodeIn (p_issues page))
             (fun acc page => fold_left (step mdCls mdAdd) (p_issues page) acc)).
  - generalize (@nil (string * list WCAGMCPServer.Entry)).
    induction pages as [|pg pages IH]; intros o; [reflexivity|].
    simpl. rewrite existsb_app, fold_left_app.
    destruct (existsb noCodeIn (p_issues pg)); [reflexivity|]. apply IH.
  - intros s pg. apply forOf_pure. intros o i. apply entryStep_step.
Qed.

Lemma not_G_digit p : isDigit p = true -> Ascii.eqb "G" p = false.
Proof.
  intros H. destruct (Ascii.eqb "G" p) eqn:E; [|reflexivity].
  apply Ascii.eqb_eq in E. subst. discriminate.
Qed.

Lemma matchHere_Gu q s :
  startsWith "Gu" s = false -> matchHere (Lit "G" :: Lit "u" :: q) s = None.
Proof.
  destruct s as [|x [|y s]]; cbn [matchHere startsWith]; try reflexivity.
  - now destruct (Ascii.eqb "G" x).
  - destruct (Ascii.eqb "G" x); [|reflexivity].
    destruct (Ascii.eqb "u" y); [discriminate|reflexivity].
Qed.

(** A prefix in which ["Gu"] does not occur cannot start a match. *)
Lemma search_skip_Gu q pre t rest :
  includes "Gu" pre = false -> Ascii.eqb "u" t = false ->
  search (Lit "G" :: Lit "u" :: q) (pre ++ String t rest)
  = search (Lit "G" :: Lit "u" :: q) (String t rest).
Proof.
  intros Hpre Ht. induction pre as [|x pre IH]; [reflexivity|].
  cbn [includes] in Hpre.
  destruct (startsWith "Gu" (String x pre)) eqn:E; [discriminate|].
  change (String x pre ++ String t rest)
    with (String x (pre ++ String t rest)).
  cbn [search]. rewrite matchHere_Gu.
  - now apply IH.
  - destruct pre as [|y pre]; cbn [startsWith append] in *.
    + rewrite Ht. apply andb_false_r.
    + exact E.
Qed.

(** The pattern of the Markdown path on a consistent structured code. *)
Lemma exec_guideline pre p a b c post :
  includes "Gu" pre = false -> isDigit p = true ->
  number a -> number b -> number c -> noDigitAhead post ->
  exec reGuideline
    (pre ++ "Principle" ++ String p (".Guideline" ++ a ++ "_" ++ b ++ "."
       ++ a ++ "_" ++ b ++ "_" ++ c ++ post))
  = Some [a; b; a; b; c].
Proof.
  intros Hpre Hp Ha Hb Hc Hpost. unfold exec, reGuideline.
  cbn [concat lit app].
  change ("Principle" ++ ?x) with (String "P" ("rinciple" ++ x)).
  rewrite search_skip_Gu by (assumption || reflexivity).
  change (String "P" ("rinciple" ++ String p (".Guideline" ++ a ++ "_" ++ b
            ++ "." ++ a ++ "_" ++ b ++ "_" ++ c ++ post)))
    with (("Principle" ++ String p ".")
            ++ ("Guideline" ++ a ++ "_" ++ b ++ "." ++ a ++ "_" ++ b ++ "_"
                  ++ c ++ post)).
  rewrite (search_skip "G" _ ("Principle" ++ String p ".") _
             ([a; b; a; b; c], post)); [reflexivity| |].
  - cbn [lacks append]. now rewrite (not_G_digit p Hp).
  - cbn [append matchHere Ascii.eqb Bool.eqb].
    change (matchHere (Digs :: Lit "_" :: Digs :: Lit "." :: Digs :: Lit "_"
                         :: Digs :: Lit "_" :: [Digs])
              (a ++ "_" ++ b ++ "." ++ a ++ "_" ++ b ++ "_" ++ c ++ post)
            = Some ([a; b; a; b; c], post)).
    match_digs.
Qed.

(** On a consistent structured code both renderers find the same
    criterion. *)
Lemma consistent_criterion i s :
  code i = Some s -> consistentCode s ->
  exists k, criterionOf i = Some k /\ mdCriterionOf i = Some k.
Proof.
  intros Hc (pre & p & a & b & c & post & HP & HG & Hp & Ha & Hb & Hd
             & Hpost & ->).
  exists (a ++ "." ++ b ++ "." ++ c). split.
  - unfold criterionOf. rewrite Hc.
    now rewrite (resolve_structured pre p a b a b c post).
  - unfold mdCriterionOf. rewrite Hc.
    now rewrite (exec_guideline pre p a b c post).
Qed.

Lemma absorb_mdAdd l0 l :
  absorb mdAdd l0 l = (l0 ++ map WCAGMCPServer.entryOf l)%list.
Proof.
  unfold absorb. revert l0. induction l as [|a l IH]; intros l0; simpl.
  - now rewrite app_nil_r.
  - rewrite IH. unfold mdAdd. now rewrite <- app_assoc.
Qed.

End MarkdownFacts.

Import MarkdownFacts.

(** X18.  The Markdown mapping throws exactly when the analysis has no
    [pageAnalyses] or one of its issues has no [code]; otherwise it returns
    a dictionary. *)
Theorem markdown_mapping_throws_iff (analysis : Analysis) :
  WCAGMCPServer._mapViolationsToWCAG analysis = Throw
  <-> a_pageAnalyses analysis = None
      \/ exists pages pg issue,
           a_pageAnalyses analysis = Some pages
           /\ In pg pages /\ In issue (p_issues pg) /\ code issue = None.
Proof.
  destruct analysis as [[pages|] rest].
  - change (mkAnalysis (Some pages) rest) with
      (mkAnalysis (Some pages) rest).
    assert (H : WCAGMCPServer._mapViolationsToWCAG (mkAnalysis (Some pages) rest)
                = WCAGMCPServer._mapViolationsToWCAG (paged pages))
      by reflexivity.
    rewrite H, mapViolations_md. simpl.
    destruct (existsb noCodeIn (concat (map p_issues pages))) eqn:E.
    + split; [|reflexivity]. intros _. right.
      apply existsb_exists in E as (issue & Hin & Hno).
      apply in_concat in Hin as (l & Hl & Hin).
      apply in_map_iff in Hl as (pg & <- & Hpg).
      exists pages, pg, issue. repeat split; try assumption.
      unfold noCodeIn in Hno. now destruct (code issue).
    + split; [discriminate|].
      intros [[=]|(pages' & pg & issue & [= <-] & Hpg & Hin & Hno)].
      assert (existsb noCodeIn (concat (map p_issues pages)) = true) as E'.
      { apply existsb_exists. exists issue. split.
        - apply in_concat. exists (p_issues pg). split; [now apply in_map|assumption].
        - unfold noCodeIn. now rewrite Hno. }
      congruence.
  - simpl. split; [now left|reflexivity].
Qed.

(** X19.  Where every code is a consistent structured code (the guideline
    numbers are the first two numbers of the success criterion, as the
    test suite of the standard writes them), the two renderers agree: the
    Markdown mapping does not throw, it has the criteria of the spreadsheet
    mapping in the same order, and under every criterion the same issues
    with the same type, message, selector and count. *)
Theorem renderers_agree_on_consistent_codes (pages : list PageAnalysis) :
  (forall pg issue, In pg pages -> In issue (p_issues pg) ->
     exists s, code issue = Some s /\ consistentCode s) ->
  exists md,
    WCAGMCPServer._mapViolationsToWCAG (paged pages) = Ok md
    /\ keys md = keys (ExcelReporter._mapViolationsToWCAG (paged pages))
    /\ forall c,
         option_map (map keptOfEntry) (get c md)
         = option_map (fun v => map keptOfViolation (ExcelReporter.issues v))
             (get c (ExcelReporter._mapViolationsToWCAG (paged pages))).
Proof.
  intros H. set (all := concat (map p_issues pages)).
  assert (Hall : forall i, In i all ->
            code i <> None /\ criterionOf i = mdCriterionOf i
            /\ mdCriterionOf i <> None).
  { intros i Hi. apply in_concat in Hi as (l & Hl & Hi).
    apply in_map_iff in Hl as (pg & <- & Hpg).
    destruct (H pg i Hpg Hi) as (s & Hc & Hs).
    destruct (consistent_criterion i s Hc Hs) as (k & -> & ->).
    split; [congruence|]. split; [reflexivity|discriminate]. }
  assert (Hfiles : forall c i, In i all ->
            GroupFold.files mdCls c i = GroupFold.files mapCls c i).
  { intros c i Hi. destruct (Hall i Hi) as (_ & Heq & _).
    unfold GroupFold.files, mdCls, mapCls. rewrite <- Heq.
    unfold criterionOf. now destruct (resolve (code i)) as [[p k]|]. }
  exists (fold_left (GroupFold.step mdCls mdAdd) all []).
  split; [|split].
  - rewrite mapViolations_md. fold all.
    replace (existsb noCodeIn all) with false; [reflexivity|].
    symmetry. apply not_true_is_false. intros E.
    apply existsb_exists in E as (i & Hi & Hno).
    destruct (Hall i Hi) as (Hc & _). unfold noCodeIn in Hno.
    destruct (code i); [discriminate|congruence].
  - unfold ExcelReporter._mapViolationsToWCAG. rewrite fold_mapStep.
    change (ExcelReporter.allIssues (paged pages)) with all.
    rewrite !keys_fold_order. simpl. f_equal.
    unfold filedKeys. rewrite !flat_map_concat_map. f_equal.
    apply map_ext_in. intros i Hi. destruct (Hall i Hi) as (_ & Heq & _).
    unfold mdCls, mapCls. rewrite <- Heq. unfold criterionOf.
    now destruct (resolve (code i)) as [[p k]|].
  - intros c.
    pose proof (get_mapViolations c (paged pages)) as Hrep.
    change (ExcelReporter.allIssues (paged pages)) with all in Hrep.
    rewrite GroupFoldFacts.get_fold. simpl get.
    assert (Hh : GroupFold.hits mdCls c all = filed c all).
    { rewrite <- hits_filed. unfold GroupFold.hits.
      apply filter_ext_in. intros i Hi. now apply Hfiles. }
    rewrite Hh.
    assert (Hsub : forall i, In i (filed c all) -> In i all)
      by (intros i Hi; unfold filed in Hi; now apply filter_In in Hi).
    destruct (filed c all) as [|a l] eqn:Hf.
    + simpl. destruct (get c _); [discriminate|reflexivity].
    + destruct (get c (ExcelReporter._mapViolationsToWCAG (paged pages)))
        as [v|]; [|discriminate].
      simpl in Hrep. injection Hrep as Hv. cbn [option_map]. rewrite Hv.
      unfold GroupFold.fresh, mdCls.
      destruct (Hall a (Hsub a (or_introl eq_refl))) as (_ & _ & Hmd).
      destruct (mdCriterionOf a); [|congruence].
      cbn [option_map snd]. rewrite absorb_mdAdd. cbn [app].
      f_equal.
      change (ExcelReporter.violationOf a :: map ExcelReporter.violationOf l)
        with (map ExcelReporter.violationOf (a :: l)).
      rewrite !map_map. reflexivity.
Qed.

Lemma renderers_agree_on_consistent_codes_witness :
  exists md,
    WCAGMCPServer._mapViolationsToWCAG (paged [page [lowContrast]]) = Ok md
    /\ keys md
       = keys (ExcelReporter._mapViolationsToWCAG (paged [page [lowContrast]]))
    /\ forall c,
         option_map (map keptOfEntry) (get c md)
         = option_map (fun v => map keptOfViolation (ExcelReporter.issues v))
             (get c (ExcelReporter._mapViolationsToWCAG
                       (paged [page [lowContrast]]))).
Proof.
  apply (renderers_agree_on_consistent_codes [page [lowContrast]]).
  intros pg issue [<-|[]] [<-|[]].
  exists "WCAG2AA.Principle1.Guideline1_4.1_4_3.G18.Fail".
  split; [reflexivity|].
  exists "WCAG2AA.", "1"%char, "1", "4", "3", ".G18.Fail".
  repeat split; discriminate.
Defined.

Module StatusFacts.

Lemma length_filter_map {A B} (f : B -> bool) (g : A -> B) l :
  length (filter (fun a => f (g a)) l) = length (filter f (map g l)).
Proof.
  induction l as [|a l IH]; simpl; [reflexivity|].
  destruct (f (g a)); simpl; now rewrite IH.
Qed.

(** The two renderers count the same errors and warnings in lists that
    keep the same of every issue. *)
Lemma counts_kept entries v :
  map keptOfEntry entries = map keptOfViolation (ExcelReporter.issues v) ->
  MarkdownReport.errorCount entries = ExcelReporter.errorCount v.
Proof.
  intros H. unfold MarkdownReport.errorCount, ExcelReporter.errorCount.
  rewrite (length_filter_map
             (fun k => strictEq (fst (fst (fst k))) "error") keptOfEntry).
  rewrite (length_filter_map
             (fun k => strictEq (fst (fst (fst k))) "error") keptOfViolation).
  now rewrite H.
Qed.

End StatusFacts.

(** X20.  The Markdown report knows two statuses only.  For the same
    issues it says "Error" ("Feil") exactly where the worksheet says
    "Ikke oppfylt"; where the worksheet says "Advarsel" or "Oppfylt" it
    says "Warning" ("Advarsel"). *)
Theorem markdown_status_vs_worksheet (language : string)
  (entries : list WCAGMCPServer.Entry) (v : ExcelReporter.Criterion) :
  map keptOfEntry entries = map keptOfViolation (ExcelReporter.issues v) ->
  (MarkdownReport.status language entries
   = (if String.eqb language "en" then "Error" else "Feil")
   <-> ExcelReporter.statusValue v = "Ikke oppfylt")
  /\ (ExcelReporter.statusValue v <> "Ikke oppfylt" ->
      MarkdownReport.status language entries
      = (if String.eqb language "en" then "Warning" else "Advarsel")).
Proof.
  intros H. unfold MarkdownReport.status, ExcelReporter.statusValue.
  rewrite (StatusFacts.counts_kept entries v H).
  destruct (0 <? ExcelReporter.errorCount v).
  - split; [split; reflexivity|]. congruence.
  - split; [|reflexivity]. split.
    + destruct (String.eqb language "en"); discriminate.
    + destruct (0 <? ExcelReporter.warningCount v); discriminate.
Qed.

Lemma markdown_status_vs_worksheet_witness :
  (MarkdownReport.status "no" [WCAGMCPServer.entryOf titleMissing]
   = "Feil"
   <-> ExcelReporter.statusValue
         (ExcelReporter.mkCriterion "Prinsipp 2" "2.4.2"
            [ExcelReporter.violationOf titleMissing]) = "Ikke oppfylt")
  /\ (ExcelReporter.statusValue
        (ExcelReporter.mkCriterion "Prinsipp 2" "2.4.2"
           [ExcelReporter.violationOf titleMissing]) <> "Ikke oppfylt" ->
      MarkdownReport.status "no" [WCAGMCPServer.entryOf titleMissing]
      = "Advarsel").
Proof.
  apply (markdown_status_vs_worksheet "no"
           [WCAGMCPServer.entryOf titleMissing]
           (ExcelReporter.mkCriterion "Prinsipp 2" "2.4.2"
              [ExcelReporter.violationOf titleMissing])).
  reflexivity.
Defined.

(** A heading row is left as it is. *)
Lemma worksheet_row_throws_iff_witness :
  Worksheet.updateRow (ExcelReporter._mapViolationsToWCAG (flat [lowContrast]))
    (Worksheet.Plain "Suksesskriterium")
  = Ok None.
Proof.
  apply (proj2 (worksheet_row_throws_iff
                  (ExcelReporter._mapViolationsToWCAG (flat [lowContrast]))
                  (Worksheet.Plain "Suksesskriterium"))
           "Suksesskriterium").
  - reflexivity.
  - reflexivity.
Defined.
